(** * wys_ars.rays.dipole_finder: the dipole detection and matching pipeline

    A shallow embedding of [Dipoles] (src/wys_ars/rays/dipole_finder.py):
    threshold building, the directional filter cascade, edge rejection,
    significance scoring, the [from_sky] factory and [find_nearest].

    Numbers.  The Python code computes on NumPy [float64] values.  Every
    function below is written once, over the interface [Float64], and read
    at two instances:
    - [float]: Rocq's primitive binary64 numbers, the arithmetic NumPy
      really performs (rounding, signed zeros, inf and nan included);
      closed terms evaluate with [vm_compute];
    - [xreal]: exact real arithmetic extended with [PInf], [NInf] and
      [NaN], that is binary64 without rounding, overflow and signed
      zeros.
    A statement made for every instance of [Float64] holds of the
    binary64 code as it stands.  A statement made at [xreal] describes the
    code where rounding plays no part in it; identities that rounding
    breaks (the number of thresholds, the invariance of the scores under
    scaling) are not stated at [xreal].

    Arrays are lists; a 2D map is its row-major flattening (the reductions
    [np.min], [np.max] and [np.std] are taken over all elements). *)

From Stdlib Require Import ZArith List Bool String Reals Lra Lia.
From Stdlib Require Import PrimFloat FloatOps SpecFloat Uint63.
From stdpp Require Import base option list gmap strings.

(** ** Exceptions and the error monad *)

Inductive exn : Type :=
| ValueError
| ZeroDivisionError
| IndexError
| KeyError
| AssertionError (msg : string).

Inductive result (A : Type) : Type :=
| Ok (a : A)
| Raise (e : exn).
Arguments Ok {A} a.
Arguments Raise {A} e.

#[global] Instance result_ret : MRet result := fun A a => Ok a.
#[global] Instance result_bind : MBind result :=
  fun A B f m => match m with Ok a => f a | Raise e => Raise e end.

Definition raises {A} (m : result A) : Prop := exists e, m = Raise e.

(** ** The float64 interface *)

Class Float64 (F : Type) : Type := {
  of_int : Z -> F;              (* int -> float conversion *)
  lit_1_1 : F;                  (* the literal 1.1 *)
  fadd : F -> F -> F;
  fsub : F -> F -> F;
  fmul : F -> F -> F;
  fdiv : F -> F -> F;           (* IEEE division: x/0 is inf or nan *)
  fabs : F -> F;
  fsqrt : F -> F;
  fceil : F -> F;               (* np.ceil *)
  frint : F -> F;               (* np.rint, ties to even *)
  fle : F -> F -> bool;
  flt : F -> F -> bool;
  feq : F -> F -> bool;
  is_nan : F -> bool;
  is_finite : F -> bool;        (* np.isfinite: neither nan nor inf *)
  signbit : F -> bool;
  to_int : F -> option Z        (* integer cast, truncating; None on inf, nan *)
}.

(** *** Instance 1: binary64 *)

Module B64.

(* Conversion of an int, rounded to nearest, ties to even.  An int past
   the largest float64 becomes an infinity here; Python raises
   OverflowError on such an operand. *)
Definition of_int (z : Z) : float :=
  SF2Prim (binary_normalize prec emax z 0 false).

(* The signed integer mantissa and the exponent of a finite number:
   its value is [m * 2^e]. *)
Definition decode (x : float) : option (Z * Z) :=
  match Prim2SF x with
  | S754_zero _ => Some (0%Z, 0%Z)
  | S754_finite s m e => Some (if s then Zneg m else Zpos m, e)
  | _ => None
  end.

(* [Z.shiftl m e] is [m * 2^e] for [0 <= e] and the floor of it below. *)
Definition floorZ (m e : Z) : Z := Z.shiftl m e.
Definition ceilZ (m e : Z) : Z := (- Z.shiftl (- m) e)%Z.
Definition truncZ (m e : Z) : Z :=
  if (m <? 0)%Z then ceilZ m e else floorZ m e.
Definition rintZ (m e : Z) : Z :=
  let f := floorZ m e in
  let rem := (m - Z.shiftl f (- e))%Z in
  let half := Z.shiftl 1 (- e - 1) in
  if (0 <=? e)%Z || (rem <? half)%Z then f
  else if (rem =? half)%Z && Z.even f then f
  else (f + 1)%Z.

Definition integral (round : Z -> Z -> Z) (x : float) : float :=
  match decode x with
  | Some (m, e) =>
      if (0 <=? e)%Z then x
      else let r := round m e in
           if (r =? 0)%Z && (m <? 0)%Z then PrimFloat.neg_zero else of_int r
  | None => x
  end.

Definition to_int (x : float) : option Z :=
  match decode x with
  | Some (m, e) => Some (truncZ m e)
  | None => None
  end.

End B64.

#[global] Instance float_Float64 : Float64 float := {
  of_int := B64.of_int;
  lit_1_1 := 0x1.199999999999ap+0%float;
  fadd := PrimFloat.add;
  fsub := PrimFloat.sub;
  fmul := PrimFloat.mul;
  fdiv := PrimFloat.div;
  fabs := PrimFloat.abs;
  fsqrt := PrimFloat.sqrt;
  fceil := B64.integral B64.ceilZ;
  frint := B64.integral B64.rintZ;
  fle := PrimFloat.leb;
  flt := PrimFloat.ltb;
  feq := PrimFloat.eqb;
  is_nan := PrimFloat.is_nan;
  is_finite := PrimFloat.is_finite;
  signbit := PrimFloat.get_sign;
  to_int := B64.to_int
}.

(** *** Instance 2: exact reals with inf and nan *)

Inductive xreal : Type :=
| Fin (r : R)
| PInf
| NInf
| NaN.

Definition Rleb (a b : R) : bool := if Rle_dec a b then true else false.
Definition Rltb (a b : R) : bool := if Rlt_dec a b then true else false.
Definition Reqb (a b : R) : bool := if Req_dec_T a b then true else false.

Definition Rtrunc (r : R) : Z := if Rltb r 0 then Zceil r else Zfloor r.
Definition Rrint (r : R) : Z :=
  let f := Zfloor r in
  let d := (r - IZR f)%R in
  if Rltb d (1 / 2) then f
  else if Reqb d (1 / 2) && Z.even f then f
  else (f + 1)%Z.

Module XR.

Definition inf (negative : bool) : xreal := if negative then NInf else PInf.

Definition is_neg (x : xreal) : bool :=
  match x with Fin r => Rltb r 0 | NInf => true | _ => false end.
Definition is_zero (x : xreal) : bool :=
  match x with Fin r => Reqb r 0 | _ => false end.

Definition opp (x : xreal) : xreal :=
  match x with
  | Fin r => Fin (- r) | PInf => NInf | NInf => PInf | NaN => NaN
  end.

Definition add (x y : xreal) : xreal :=
  match x, y with
  | NaN, _ | _, NaN => NaN
  | Fin a, Fin b => Fin (a + b)
  | PInf, NInf | NInf, PInf => NaN
  | PInf, _ | _, PInf => PInf
  | NInf, _ | _, NInf => NInf
  end.

Definition sub (x y : xreal) : xreal := add x (opp y).

Definition mul (x y : xreal) : xreal :=
  match x, y with
  | NaN, _ | _, NaN => NaN
  | Fin a, Fin b => Fin (a * b)
  | _, _ => if is_zero x || is_zero y then NaN
            else inf (xorb (is_neg x) (is_neg y))
  end.

Definition div (x y : xreal) : xreal :=
  match x, y with
  | NaN, _ | _, NaN => NaN
  | Fin a, Fin b =>
      if Reqb b 0 then (if Reqb a 0 then NaN else inf (Rltb a 0))
      else Fin (a / b)
  | Fin _, _ => Fin 0
  | _, Fin _ => inf (xorb (is_neg x) (is_neg y))
  | _, _ => NaN
  end.

Definition abs (x : xreal) : xreal :=
  match x with Fin r => Fin (Rabs r) | NaN => NaN | _ => PInf end.

Definition sqrt (x : xreal) : xreal :=
  match x with
  | Fin r => if Rltb r 0 then NaN else Fin (R_sqrt.sqrt r)
  | PInf => PInf
  | _ => NaN
  end.

Definition integral (round : R -> Z) (x : xreal) : xreal :=
  match x with Fin r => Fin (IZR (round r)) | _ => x end.

Definition le (x y : xreal) : bool :=
  match x, y with
  | NaN, _ | _, NaN => false
  | Fin a, Fin b => Rleb a b
  | NInf, _ | _, PInf => true
  | _, _ => false
  end.

Definition eq (x y : xreal) : bool :=
  match x, y with
  | Fin a, Fin b => Reqb a b
  | PInf, PInf | NInf, NInf => true
  | _, _ => false
  end.

Definition lt (x y : xreal) : bool := le x y && negb (eq x y).

Definition is_nan (x : xreal) : bool :=
  match x with NaN => true | _ => false end.

Definition is_finite (x : xreal) : bool :=
  match x with Fin _ => true | _ => false end.

Definition to_int (x : xreal) : option Z :=
  match x with Fin r => Some (Rtrunc r) | _ => None end.

End XR.

#[global] Instance xreal_Float64 : Float64 xreal := {
  of_int := fun z => Fin (IZR z);
  lit_1_1 := Fin (11 / 10);
  fadd := XR.add;
  fsub := XR.sub;
  fmul := XR.mul;
  fdiv := XR.div;
  fabs := XR.abs;
  fsqrt := XR.sqrt;
  fceil := XR.integral Zceil;
  frint := XR.integral Rrint;
  fle := XR.le;
  flt := XR.lt;
  feq := XR.eq;
  is_nan := XR.is_nan;
  is_finite := XR.is_finite;
  signbit := XR.is_neg;
  to_int := XR.to_int
}.

(** ** Library functions the pipeline calls

    NumPy, pandas and scikit-learn are not part of the repository; these
    are their documented behaviours on the argument shapes the pipeline
    passes. *)

Section Libraries.
Context {F : Type} `{Float64 F}.

(* np.min, np.max over all elements: a reduction with
   [io1 = (io1 <= in2 || isnan(io1)) ? io1 : in2] (resp. [>=]); an empty
   array has no minimum and raises ValueError. *)
Definition np_min (a : list F) : result F :=
  match a with
  | [] => Raise ValueError
  | x :: xs =>
      Ok (fold_left
            (fun io1 in2 => if fle io1 in2 || is_nan io1 then io1 else in2)
            xs x)
  end.

Definition np_max (a : list F) : result F :=
  match a with
  | [] => Raise ValueError
  | x :: xs =>
      Ok (fold_left
            (fun io1 in2 => if fle in2 io1 || is_nan io1 then io1 else in2)
            xs x)
  end.

(* np.sum over all elements of a contiguous float64 array is
   [add.reduce]: the identity 0 plus NumPy's pairwise sum of the values
   (umath/loops_utils.h, [DOUBLE_pairwise_sum]).  Fewer than 8 values are
   added in index order; up to [PW_BLOCKSIZE] values go through 8
   accumulators, [r[j] += a[i + j]], which are then added as
   [((r0 + r1) + (r2 + r3)) + ((r4 + r5) + (r6 + r7))] and followed by
   the values after the last full block; a longer array is split at
   [n / 2] rounded down to a multiple of 8 and the sums of its two parts
   are added. *)
Definition PW_BLOCKSIZE : nat := 128.

Fixpoint pairwise_blocks (blocks : nat) (r a : list F) : list F * list F :=
  match blocks with
  | O => (r, a)
  | S blocks' =>
      pairwise_blocks blocks' (zip_with fadd r (firstn 8 a)) (skipn 8 a)
  end.

Definition pairwise_unrolled (a : list F) : F :=
  let '(r, rest) :=
    pairwise_blocks (length a / 8 - 1) (firstn 8 a) (skipn 8 a) in
  match r with
  | [r0; r1; r2; r3; r4; r5; r6; r7] =>
      fold_left fadd rest
        (fadd (fadd (fadd r0 r1) (fadd r2 r3))
              (fadd (fadd r4 r5) (fadd r6 r7)))
  | _ => fold_left fadd a (of_int 0)
  end.

(* [depth] bounds the recursion; the length of the array is enough. *)
Fixpoint pairwise_sum_rec (depth : nat) (a : list F) : F :=
  let n := length a in
  if (n <? 8)%nat then fold_left fadd a (of_int 0)
  else if (n <=? PW_BLOCKSIZE)%nat then pairwise_unrolled a
  else match depth with
       | O => pairwise_unrolled a
       | S depth' =>
           let n2 := (n / 2 - (n / 2) mod 8)%nat in
           fadd (pairwise_sum_rec depth' (firstn n2 a))
                (pairwise_sum_rec depth' (skipn n2 a))
       end.

Definition pairwise_sum (a : list F) : F := pairwise_sum_rec (length a) a.

Definition np_sum (a : list F) : F := fadd (of_int 0) (pairwise_sum a).

(* numpy.core._methods._var: the mean is the sum over the item count, the
   squared deviations are summed and divided by [max(count - ddof, 0)]. *)
Definition np_var (ddof : Z) (a : list F) : F :=
  let rcount := Z.of_nat (length a) in
  let arrmean := fdiv (np_sum a) (of_int rcount) in
  let x := map (fun v => let d := fsub v arrmean in fmul d d) a in
  fdiv (np_sum x) (of_int (Z.max (rcount - ddof) 0)).

(* np.std(a): ddof defaults to 0. *)
Definition np_std (a : list F) : F := fsqrt (np_var 0 a).

Definition NPY_MIN_INTP : Z := (- 2 ^ 63)%Z.
Definition NPY_MAX_INTP : Z := (2 ^ 63 - 1)%Z.

(* The items of an arange ([DOUBLE_fill]): [start], [start + step] and
   then [start + i * delta] with [delta = (start + step) - start]. *)
Definition arange_item (start step : F) (i : nat) : F :=
  match i with
  | O => start
  | S O => fadd start step
  | _ => fadd start (fmul (of_int (Z.of_nat i)) (fsub (fadd start step) start))
  end.

(* np.arange(start, stop, step) on float64 scalars ([PyArray_ArangeObj],
   [_calc_length], [_arange_safe_ceil_to_intp]).  The length is
   [ceil((stop - start) / step)].  A nan length raises ValueError
   ("arange: cannot compute length"); a length outside the doubles from
   [(double) NPY_MIN_INTP] to [(double) NPY_MAX_INTP = 2^63] raises
   ValueError ("Maximum allowed size exceeded"); the cast of 2^63 itself
   wraps to the minimal intp, an empty array.  A quotient that is zero
   although [stop - start] is not gives length 1 (0 when negative).  An
   array of more than [NPY_MAX_INTP / 8] items is refused with ValueError
   ("array is too big"); that the machine has the memory for a smaller
   one is taken for granted. *)
Definition np_arange (start stop step : F) : result (list F) :=
  let next := fsub stop start in
  let next_is_nonzero := negb (feq next (of_int 0)) in
  let val := fdiv next step in
  let val_is_zero := feq val (of_int 0) in
  let ivalue := fceil val in
  if is_nan ivalue then Raise ValueError
  else match to_int ivalue with
       | None => Raise ValueError
       | Some n =>
           if negb ((NPY_MIN_INTP <=? n)%Z && (n <=? NPY_MAX_INTP + 1)%Z)
           then Raise ValueError
           else
             let n := if (n =? NPY_MAX_INTP + 1)%Z then NPY_MIN_INTP else n in
             let len := if val_is_zero && next_is_nonzero
                        then (if signbit val then 0%Z else 1%Z)
                        else n in
             if (NPY_MAX_INTP / 8 <? len)%Z then Raise ValueError
             else Ok (map (arange_item start step) (seq 0 (Z.to_nat len)))
       end.

(* a[mask] with a boolean mask: the mask must have the array's length
   along axis 0, else IndexError. *)
Definition np_mask {A : Type} (a : list A) (mask : list bool)
  : result (list A) :=
  if negb (length a =? length mask)%nat then Raise IndexError
  else Ok (map fst (List.filter (fun am : A * bool => am.2) (combine a mask))).

(* np.rint(v).astype(int); the cast of inf or nan is the minimal int. *)
Definition np_rint_int (v : F) : Z :=
  match to_int (frint v) with Some z => z | None => NPY_MIN_INTP end.

(* sklearn: NearestNeighbors(n_neighbors=1).fit(X).kneighbors(Y), then
   [.T[0]] of both results: for every row of Y the Euclidean distance to,
   and the index of, the nearest row of X (the first such row on ties).
   Both [fit] and [kneighbors] validate their array with [check_array],
   which raises ValueError on a nan or an infinity and on zero samples. *)
Definition euclidean (p q : F * F) : F :=
  let dx := fsub p.1 q.1 in
  let dy := fsub p.2 q.2 in
  fsqrt (fadd (fmul dx dx) (fmul dy dy)).

Fixpoint argmin_from (i : nat) (best : F * nat) (ds : list F) : F * nat :=
  match ds with
  | [] => best
  | d :: ds' =>
      argmin_from (S i) (if flt d best.1 then (d, i) else best) ds'
  end.

Definition nearest (x0 : F * F) (X : list (F * F)) (q : F * F) : F * nat :=
  argmin_from 1 (euclidean x0 q, O) (map (fun x => euclidean x q) X).

Definition all_finite (X : list (F * F)) : bool :=
  forallb (fun p => is_finite p.1 && is_finite p.2) X.

Definition check_array (X : list (F * F)) : result (list (F * F)) :=
  if negb (all_finite X) then Raise ValueError
  else match X with
       | [] => Raise ValueError
       | _ => Ok X
       end.

Definition kneighbors (X Y : list (F * F)) : result (list F * list nat) :=
  X ← check_array X;
  Y ← check_array Y;
  match X with
  | [] => Raise ValueError
  | x0 :: X' =>
      let found := map (nearest x0 X') Y in
      Ok (map fst found, map snd found)
  end.

(* pandas: df[name] = values for an array value; the length must be the
   frame's number of rows, else ValueError. *)
Definition pd_setitem {A : Type} (nrows : nat) (values : list A)
  : result (list A) :=
  if (length values =? nrows)%nat then Ok values else Raise ValueError.

End Libraries.

(** ** The data model *)

Section DataModel.
Context {F : Type}.

(* SkyMap, as far as [Dipoles] reads and writes it. *)
Record SkyMap : Type := {
  data : gmap string (list F);
  npix : Z;
  opening_angle : F;
  map_file : string
}.

(* The peak table: the DataFrame built by [from_sky], its [attrs], and
   the two columns [find_nearest] adds. *)
Record PeakFrame : Type := {
  deltaT : list F;
  x_deg : list F;
  y_deg : list F;
  snr : list F;
  x_pix : list Z;
  y_pix : list Z;
  index_dipole : option (list nat);
  distances : option (list F);
  attrs_map_file : string;
  attrs_filters : bool;
  attrs_kernel_width : F
}.

Record Dipoles : Type := { Dipoles_data : PeakFrame }.

(* bin_dsc = {"on": ..., "nbins": ...} *)
Record BinDsc : Type := { bin_on : string; bin_nbins : Z }.

(* One entry of a filter_dsc dictionary. *)
Inductive kernel : Type :=
| gaussian_high_pass
| gaussian_third_derivative
| gaussian_low_pass.

Record filter_args : Type := {
  abbrev : string;
  theta_i : F;
  direction : option Z
}.

End DataModel.
Arguments SkyMap F : clear implicits.
Arguments PeakFrame F : clear implicits.
Arguments Dipoles F : clear implicits.
Arguments filter_args F : clear implicits.

(** ** The class [Dipoles] *)

Section DipolesMethods.
Context {F : Type} `{Float64 F}.

(* The 2D kernels (wys_ars.rays.utils.filters) and the peak finder of
   lenstools, [ConvergenceMap(data, angle).locatePeaks(thresholds)], are
   external: the pipeline is stated for any such functions. *)
Variable apply_kernel : kernel -> filter_args F -> list F -> list F.
Variable locatePeaks : list F -> F -> list F -> list F * list (F * F).

(** Modelled from the spec: [SkyMap.convolution(filter_dsc, on=...,
    sky_array=..., rtn=True)]; wys_ars.rays.skymap is not among the
    sources.  Per sections 3 and 6 it applies a named filter
    configuration to an existing variant (or to the array handed over)
    and returns the new array; the entries of [filter_dsc] are applied in
    the order the dictionary lists them, and with [rtn=True] nothing is
    stored. *)
Definition convolution (skymap : SkyMap F)
    (filter_dsc : list (kernel * filter_args F))
    (source : string + list F) : result (list F) :=
  sky_array ← match source with
              | inl on => match data skymap !! on with
                          | Some a => Ok a
                          | None => Raise KeyError
                          end
              | inr a => Ok a
              end;
  Ok (fold_left (fun arr kf => apply_kernel kf.1 kf.2 arr)
                filter_dsc sky_array).

(* The method assigns into [skymap.data] and returns the same object:
   here, the updated sky map. *)
Definition _filter (skymap : SkyMap F) (kernel_width : F) (direction : Z)
  : result (SkyMap F) :=
  let filter_dsc :=
    [ (gaussian_high_pass,
       {| abbrev := "ghpf"; theta_i := kernel_width; direction := None |});
      (gaussian_third_derivative,
       {| abbrev := "g3df"; theta_i := kernel_width;
          direction := Some direction |}) ] in
  _map ← convolution skymap filter_dsc (inl "orig"%string);
  let filter_dsc :=
    [ (gaussian_low_pass,
       {| abbrev := "glpf"; theta_i := kernel_width; direction := None |}) ]
  in
  filtered ← convolution skymap filter_dsc (inr (map fabs _map));
  Ok {| data := <["orig_ghpf_g3df_glpf"%string := filtered]> (data skymap);
        npix := npix skymap;
        opening_angle := opening_angle skymap;
        map_file := map_file skymap |}.

Definition _get_convergence_thresholds (sky_array : list F) (nbins : Z)
  : result (list F) :=
  lo ← np_min sky_array;
  hi ← np_max sky_array;
  let stop := fmul hi lit_1_1 in
  np_arange lo stop (fdiv (fsub stop lo) (of_int nbins)).

(* [sigma] is accepted and never read. *)
Definition _signal_to_noise_ratio (peak_values map_values : list F)
    (sigma : option F) : result (list F) :=
  let _kappa_std := np_std map_values in
  Ok (map (fun p => fdiv p _kappa_std) peak_values).

(* [opening_angle] and [kernel_width] are Python floats and [npix] a
   Python int: their divisions raise ZeroDivisionError on a zero divisor.
   The positions are NumPy arrays, whose division does not raise. *)
Definition _remove_peaks_crossing_edge (npix : Z)
    (opening_angle kernel_width : F)
    (sigma : list F) (pos : list (F * F))
  : result (list F * list (F * F)) :=
  pixlen ← (if (npix =? 0)%Z then Raise ZeroDivisionError
            else Ok (fdiv opening_angle (of_int npix)));
  let denom := fmul (of_int 60) pixlen in
  bufferlen ← (if feq denom (of_int 0) then Raise ZeroDivisionError
               else Ok (fceil (fdiv kernel_width denom)));
  let x := map (fun p => fdiv (fmul p.1 (of_int npix)) opening_angle) pos in
  let y := map (fun p => fdiv (fmul p.2 (of_int npix)) opening_angle) pos in
  let inside v :=
    fle v (fsub (of_int (npix - 1)) bufferlen) && fle bufferlen v in
  let indx := zip_with andb (map inside x) (map inside y) in
  sigma ← np_mask sigma indx;
  pos ← np_mask pos indx;
  Ok (sigma, pos).

(* The caller's sky map is not tracked past [from_sky]: only the
   [Dipoles] object (or the exception) is returned. *)
Definition from_sky (skymap : SkyMap F) (on : string) (bin_dsc : BinDsc)
    (kernel_width : F) (direction : Z) (filters : bool)
  : result (Dipoles F) :=
  skymap ← (if filters then _filter skymap kernel_width direction
            else Ok skymap);
  sky_array ← match data skymap !! bin_on bin_dsc with
              | Some a => Ok a
              | None => Raise KeyError
              end;
  thresholds ← _get_convergence_thresholds sky_array (bin_nbins bin_dsc);
  _map_data ← match data skymap !! on with
              | Some a => Ok a
              | None => Raise KeyError
              end;
  let '(deltaT, pos_deg) :=
    locatePeaks _map_data (opening_angle skymap) thresholds in
  '(deltaT, pos_deg) ← _remove_peaks_crossing_edge
      (npix skymap) (opening_angle skymap) kernel_width deltaT pos_deg;
  if (length deltaT =? 0)%nat then Raise (AssertionError "No peaks")
  else
    snr ← _signal_to_noise_ratio deltaT _map_data None;
    let to_pix v :=
      np_rint_int
        (fdiv (fmul v (of_int (npix skymap))) (opening_angle skymap)) in
    Ok {| Dipoles_data :=
            {| deltaT := deltaT;
               x_deg := map fst pos_deg;
               y_deg := map snd pos_deg;
               snr := snr;
               x_pix := map (fun p => to_pix p.1) pos_deg;
               y_pix := map (fun p => to_pix p.2) pos_deg;
               index_dipole := None;
               distances := None;
               attrs_map_file := map_file skymap;
               attrs_filters := filters;
               attrs_kernel_width := kernel_width |} |}.

(* [df2] is read through [df2[["x_deg", "y_deg"]].values]: its rows.
   The method has no return statement: it returns None and leaves its
   result in [self.data]. *)
Definition find_nearest (self : Dipoles F) (df2 : list (F * F))
  : result (Dipoles F * option (PeakFrame F)) :=
  let df := Dipoles_data self in
  '(distances, indices) ← kneighbors (combine (x_deg df) (y_deg df)) df2;
  indices ← pd_setitem (length (deltaT df)) indices;
  distances ← pd_setitem (length (deltaT df)) distances;
  Ok ({| Dipoles_data :=
           {| deltaT := deltaT df;
              x_deg := x_deg df;
              y_deg := y_deg df;
              snr := snr df;
              x_pix := x_pix df;
              y_pix := y_pix df;
              index_dipole := Some indices;
              distances := Some distances;
              attrs_map_file := attrs_map_file df;
              attrs_filters := attrs_filters df;
              attrs_kernel_width := attrs_kernel_width df |} |},
      None).

End DipolesMethods.

(** ** The specification's wording

    Definitions that follow the sentences of the specification, to be
    compared with the embedded code. *)

Section Specification.
Context {F : Type} `{Float64 F}.

(* Edge rejector: pixel length, buffer and pixel coordinate. *)
Definition pixel_len_deg (npix : Z) (opening_angle_deg : F) : F :=
  fdiv opening_angle_deg (of_int npix).

Definition buffer_px (npix : Z) (opening_angle_deg kernel_width_arcmin : F)
  : F :=
  fceil (fdiv kernel_width_arcmin
              (fmul (of_int 60) (pixel_len_deg npix opening_angle_deg))).

Definition to_px (npix : Z) (opening_angle_deg pos_deg : F) : F :=
  fdiv (fmul pos_deg (of_int npix)) opening_angle_deg.

(* buffer_px <= px <= npix - 1 - buffer_px on both axes *)
Definition retained (npix : Z) (opening_angle_deg kernel_width_arcmin : F)
    (pos_deg : F * F) : bool :=
  let b := buffer_px npix opening_angle_deg kernel_width_arcmin in
  let within px := fle b px && fle px (fsub (of_int (npix - 1)) b) in
  within (to_px npix opening_angle_deg pos_deg.1)
  && within (to_px npix opening_angle_deg pos_deg.2).

(* The position, in degrees, of a pixel coordinate. *)
Definition px_to_deg (npix : Z) (opening_angle_deg : F) (px : Z) : F :=
  fdiv (fmul (of_int px) opening_angle_deg) (of_int npix).

(* Significance scorer: the population standard deviation (ddof = 0),
   the root of the mean squared deviation from the mean. *)
Definition mean (a : list F) : F :=
  fdiv (np_sum a) (of_int (Z.of_nat (length a))).

Definition population_std (a : list F) : F :=
  fsqrt (mean (map (fun v => let d := fsub v (mean a) in fmul d d) a)).

(* Threshold builder: a strictly increasing sequence. *)
Fixpoint strictly_increasing (l : list F) : bool :=
  match l with
  | a :: (b :: _) as l' => flt a b && strictly_increasing l'
  | _ => true
  end.

(* Scaling a sequence by a constant. *)
Definition scale (k : F) (a : list F) : list F := map (fmul k) a.

(* Catalog matcher: for each peak the nearest catalog record; an empty
   catalog is an error. *)
Definition match_nearest (peaks catalog : list (F * F))
  : result (list nat * list F) :=
  match catalog with
  | [] => Raise ValueError
  | c0 :: catalog' =>
      let found := map (nearest c0 catalog') peaks in
      Ok (map snd found, map fst found)
  end.

End Specification.

(* The three kernels of the cascade, at one scale. *)

Section Kernels.
Context {F : Type} `{Float64 F}.
Variable apply_kernel : kernel -> filter_args F -> list F -> list F.

Definition high_pass (kernel_width : F) : list F -> list F :=
  apply_kernel gaussian_high_pass
    {| abbrev := "ghpf"; theta_i := kernel_width; direction := None |}.

Definition third_derivative (kernel_width : F) (dir : Z)
  : list F -> list F :=
  apply_kernel gaussian_third_derivative
    {| abbrev := "g3df"; theta_i := kernel_width; direction := Some dir |}.

Definition low_pass (kernel_width : F) : list F -> list F :=
  apply_kernel gaussian_low_pass
    {| abbrev := "glpf"; theta_i := kernel_width; direction := None |}.

End Kernels.

(** Concrete collaborators and inputs, for running the pipeline at
    binary64. *)

(* Three maps that do not commute, in place of the Gaussian kernels. *)
Definition toy_kernel (k : kernel) (a : filter_args float) (arr : list float)
  : list float :=
  match k with
  | gaussian_high_pass => map (fun v => fsub v (theta_i a)) arr
  | gaussian_third_derivative =>
      map (fun v => fmul v (of_int (default 0%Z (direction a) + 1))) arr
  | gaussian_low_pass => map (fun v => fadd v (theta_i a)) arr
  end.

(* A peak finder that finds nothing. *)
Definition locate_nothing (_ : list float) (_ : float) (_ : list float)
  : list float * list (float * float) := ([], []).

Definition toy_skymap : SkyMap float :=
  {| data := <["orig"%string := map of_int [0; 1; 2; 3]%Z]> ∅;
     npix := 2;
     opening_angle := of_int 20;
     map_file := "Ray_maps.h5" |}.

(* A sky map whose raw variant holds no pixel. *)
Definition toy_empty_skymap : SkyMap float :=
  {| data := <["orig"%string := []]> ∅;
     npix := 2;
     opening_angle := of_int 20;
     map_file := "Ray_maps.h5" |}.

(* Two dipoles, at (0, 0) and (1, 0) degrees. *)
Definition toy_dipoles : Dipoles float :=
  {| Dipoles_data :=
       {| deltaT := map of_int [3; 4]%Z;
          x_deg := map of_int [0; 1]%Z;
          y_deg := map of_int [0; 0]%Z;
          snr := map of_int [6; 8]%Z;
          x_pix := [0; 5]%Z;
          y_pix := [0; 0]%Z;
          index_dipole := None;
          distances := None;
          attrs_map_file := "Ray_maps.h5";
          attrs_filters := true;
          attrs_kernel_width := of_int 5 |} |}.

(* A peak finder that finds one peak, at (10, 10) degrees, and a sky map
   of 100 pixels a side over 20 degrees. *)
Definition locate_one (_ : list float) (_ : float) (_ : list float)
  : list float * list (float * float) :=
  ([of_int 7], [(of_int 10, of_int 10)]).

Definition toy_wide_skymap : SkyMap float :=
  {| data := <["orig"%string := map of_int [0; 1; 2; 3]%Z]> ∅;
     npix := 100;
     opening_angle := of_int 20;
     map_file := "Ray_maps.h5" |}.

(** Real-valued counterparts, for the statements at [xreal]. *)

Definition Rsum (l : list R) : R := fold_left Rplus l 0%R.

Definition Rmean (l : list R) : R := (Rsum l / IZR (Z.of_nat (length l)))%R.

Definition Rvar (l : list R) : R :=
  Rmean (map (fun r => ((r + - Rmean l) * (r + - Rmean l))%R) l).

Definition Rlist_min (x : R) (xs : list R) : R := fold_left Rmin xs x.
Definition Rlist_max (x : R) (xs : list R) : R := fold_left Rmax xs x.

(* Finite positions and their Euclidean distance. *)
Definition finite_point (p : R * R) : xreal * xreal := (Fin p.1, Fin p.2).

Definition Rdist (p q : R * R) : R :=
  R_sqrt.sqrt ((p.1 + - q.1) * (p.1 + - q.1)
               + (p.2 + - q.2) * (p.2 + - q.2)).

(* The two dipoles of [toy_dipoles], at (0, 0) and (1, 0) degrees, in
   exact arithmetic. *)
Definition toy_dipoles_exact : Dipoles xreal :=
  {| Dipoles_data :=
       {| deltaT := [Fin 3; Fin 4];
          x_deg := [Fin 0; Fin 1];
          y_deg := [Fin 0; Fin 0];
          snr := [Fin 6; Fin 8];
          x_pix := [0; 5]%Z;
          y_pix := [0; 0]%Z;
          index_dipole := None;
          distances := None;
          attrs_map_file := "Ray_maps.h5";
          attrs_filters := true;
          attrs_kernel_width := Fin 5 |} |}.

(* The wide sky map and the one-peak finder in exact arithmetic. *)
Definition toy_wide_skymap_exact : SkyMap xreal :=
  {| data := <["orig"%string := map Fin [0; 10]%R]> ∅;
     npix := 100;
     opening_angle := Fin 20;
     map_file := "Ray_maps.h5" |}.

Definition locate_one_exact (_ : list xreal) (_ : xreal) (_ : list xreal)
  : list xreal * list (xreal * xreal) :=
  ([Fin 7], [(Fin 10, Fin 10)]).

Definition identity_kernel (_ : kernel) (_ : filter_args xreal)
    (arr : list xreal) : list xreal := arr.

(** * Properties *)

(** ** The error monad *)

Lemma bind_Ok {A B} (a : A) (f : A -> result B) : (Ok a ≫= f) = f a.
Proof. reflexivity. Qed.

Lemma bind_Raise {A B} (e : exn) (f : A -> result B) :
  (Raise e ≫= f) = Raise e.
Proof. reflexivity. Qed.

Lemma raises_Raise {A} (e : exn) : raises (@Raise A e).
Proof. exists e; reflexivity. Qed.

Lemma not_raises_Ok {A} (a : A) : ~ raises (Ok a).
Proof. intros [e He]; discriminate He. Qed.

(** ** Pairwise summation: the recursion depth suffices *)

Section PairwiseSum.
Context {F : Type} `{Float64 F}.

(* Any two depths that are at least the length of the array give the same
   sum: the bound on the recursion is never what stops it. *)
Lemma pairwise_sum_rec_depth (d1 d2 : nat) (a : list F) :
  (length a <= d1)%nat -> (length a <= d2)%nat ->
  pairwise_sum_rec d1 a = pairwise_sum_rec d2 a.
Proof.
  revert d2 a. induction d1 as [|d1 IH]; intros d2 a H1 H2.
  - destruct a; [|simpl in H1; lia]. destruct d2; reflexivity.
  - destruct d2 as [|d2].
    { destruct a; [|simpl in H2; lia]. reflexivity. }
    cbn [pairwise_sum_rec].
    destruct (length a <? 8)%nat eqn:Hshort; [reflexivity|].
    destruct (length a <=? PW_BLOCKSIZE)%nat eqn:Hblock; [reflexivity|].
    apply Nat.ltb_ge in Hshort. apply Nat.leb_gt in Hblock.
    unfold PW_BLOCKSIZE in Hblock.
    assert (Hn2 : (1 <= length a / 2 - (length a / 2) mod 8 < length a)%nat).
    { pose proof (Nat.mod_upper_bound (length a / 2) 8 ltac:(lia)).
      pose proof (Nat.Div0.div_lt_upper_bound (length a) 2 (length a)
                    ltac:(lia)).
      assert (64 <= length a / 2)%nat
        by (apply Nat.div_le_lower_bound; lia).
      lia. }
    f_equal; apply IH; rewrite ?length_firstn, ?length_skipn; lia.
Qed.

(* An array longer than a block is summed as the sum of its two parts. *)
Lemma pairwise_sum_split (a : list F) :
  (PW_BLOCKSIZE < length a)%nat ->
  let n2 := (length a / 2 - (length a / 2) mod 8)%nat in
  pairwise_sum a
  = fadd (pairwise_sum (firstn n2 a)) (pairwise_sum (skipn n2 a)).
Proof.
  intros Hlong n2. unfold pairwise_sum at 1.
  destruct (length a) as [|d] eqn:Hlen; [inversion Hlong|].
  cbn [pairwise_sum_rec]. rewrite Hlen.
  assert (Hblock : (S d <=? PW_BLOCKSIZE)%nat = false)
    by (apply Nat.leb_gt; exact Hlong).
  assert (Hshort : (S d <? 8)%nat = false)
    by (apply Nat.ltb_ge; unfold PW_BLOCKSIZE in Hlong; lia).
  rewrite Hshort, Hblock. fold n2.
  assert (Hn2 : (1 <= n2 < S d)%nat).
  { unfold n2, PW_BLOCKSIZE in *.
    pose proof (Nat.mod_upper_bound (S d / 2) 8 ltac:(lia)).
    pose proof (Nat.Div0.div_lt_upper_bound (S d) 2 (S d) ltac:(lia)).
    assert (64 <= S d / 2)%nat by (apply Nat.div_le_lower_bound; lia).
    lia. }
  unfold pairwise_sum.
  f_equal; apply pairwise_sum_rec_depth;
    rewrite ?length_firstn, ?length_skipn; lia.
Qed.

End PairwiseSum.

(** ** Boolean masks *)

Section Masks.
Context {A B : Type}.

(* Selecting with a mask computed row by row is filtering the rows. *)
Lemma mask_of_rows (h : A -> B) (g : A -> bool) (l : list A) :
  map fst (List.filter (fun am : B * bool => am.2)
                       (combine (map h l) (map g l)))
  = map h (List.filter g l).
Proof.
  induction l as [|a l IH]; simpl; [reflexivity|].
  destruct (g a); simpl; rewrite IH; reflexivity.
Qed.

Lemma np_mask_rows (h : A -> B) (g : A -> bool) (l : list A) :
  np_mask (map h l) (map g l) = Ok (map h (List.filter g l)).
Proof.
  unfold np_mask. rewrite !length_map, Nat.eqb_refl; simpl.
  now rewrite mask_of_rows.
Qed.

End Masks.

Lemma zip_with_map_same {A B C D} (f : B -> C -> D) (g : A -> B) (h : A -> C)
    (l : list A) :
  zip_with f (map g l) (map h l) = map (fun a => f (g a) (h a)) l.
Proof. induction l as [|a l IH]; simpl; [reflexivity | now rewrite IH]. Qed.

(** ** Edge rejection *)

Section EdgeRejection.
Context {F : Type} `{Float64 F}.

(** C2. With pixel_len_deg = opening_angle_deg / npix, buffer_px =
    ceil(kernel_width_arcmin / (60 * pixel_len_deg)) and px = pos_deg *
    npix / opening_angle_deg, the edge rejector keeps exactly the peaks
    with buffer_px <= px <= npix - 1 - buffer_px on both axes, amplitude
    and position together and in their order; every other peak is
    dropped.  The two hypotheses say that the Python divisions are
    defined. *)
Theorem remove_peaks_crossing_edge_retains_iff
    (npix : Z) (opening_angle kernel_width : F)
    (peaks : list (F * (F * F))) :
  npix <> 0%Z ->
  feq (fmul (of_int 60) (pixel_len_deg npix opening_angle)) (of_int 0)
    = false ->
  _remove_peaks_crossing_edge npix opening_angle kernel_width
      (map fst peaks) (map snd peaks)
  = let kept :=
      List.filter (fun p => retained npix opening_angle kernel_width p.2)
                  peaks in
    Ok (map fst kept, map snd kept).
Proof.
  intros Hnpix Hden.
  unfold _remove_peaks_crossing_edge.
  apply Z.eqb_neq in Hnpix. rewrite Hnpix, bind_Ok.
  unfold pixel_len_deg in Hden. rewrite Hden, bind_Ok.
  rewrite !map_map, zip_with_map_same.
  match goal with
  | |- context [np_mask _ (map ?indx peaks)] =>
      rewrite (map_ext indx
                 (fun p => retained npix opening_angle kernel_width p.2))
  end.
  - rewrite (np_mask_rows fst), bind_Ok, (np_mask_rows snd), bind_Ok.
    reflexivity.
  - intros [a [x y]].
    unfold retained, buffer_px, pixel_len_deg, to_px; simpl.
    f_equal; apply andb_comm.
Qed.

End EdgeRejection.

Lemma remove_peaks_crossing_edge_retains_iff_witness :
  let peaks : list (float * (float * float)) :=
    [ (of_int 7, (px_to_deg 100 (of_int 20) 0, px_to_deg 100 (of_int 20) 50));
      (of_int 8, (px_to_deg 100 (of_int 20) 50, px_to_deg 100 (of_int 20) 50));
      (of_int 9, (px_to_deg 100 (of_int 20) 50, px_to_deg 100 (of_int 20) 99)) ]
  in
  _remove_peaks_crossing_edge 100 (of_int 20) (of_int 5)
      (map fst peaks) (map snd peaks)
  = Ok ([of_int 8],
        [(px_to_deg 100 (of_int 20) 50, px_to_deg 100 (of_int 20) 50)]).
Proof.
  intros peaks.
  rewrite (remove_peaks_crossing_edge_retains_iff 100 (of_int 20) (of_int 5)
             peaks); [ | lia | vm_compute; reflexivity ].
  vm_compute; reflexivity.
Defined.

(** C6, as stated, fails: with npix = 100, opening_angle_deg = 20 and
    kernel_width_arcmin = 5 the peak at pixel (2, 50) is not rejected. *)
Lemma edge_instance_pixel_2_50_not_rejected :
  _remove_peaks_crossing_edge (F := float) 100 (of_int 20) (of_int 5)
      [of_int 1]
      [(px_to_deg 100 (of_int 20) 2, px_to_deg 100 (of_int 20) 50)]
  <> Ok ([], []).
Proof. vm_compute; discriminate. Qed.

(** C6, amended.  With npix = 100, opening_angle_deg = 20 and
    kernel_width_arcmin = 5 the buffer is 1 pixel; the peaks at pixels
    (2, 50) and (50, 50) are retained; a peak at exactly buffer_px = 1 from
    the edge is kept and one at buffer_px - 1 = 0 is rejected. *)
Theorem edge_instance_buffer_is_one_pixel :
  let reject (px py : Z) :=
    _remove_peaks_crossing_edge (F := float) 100 (of_int 20) (of_int 5)
        [of_int 1]
        [(px_to_deg 100 (of_int 20) px, px_to_deg 100 (of_int 20) py)] in
  let kept (px py : Z) : result (list float * list (float * float)) :=
    Ok ([of_int 1],
        [(px_to_deg 100 (of_int 20) px, px_to_deg 100 (of_int 20) py)]) in
  buffer_px (F := float) 100 (of_int 20) (of_int 5) = of_int 1
  /\ reject 2%Z 50%Z = kept 2%Z 50%Z
  /\ reject 50%Z 50%Z = kept 50%Z 50%Z
  /\ reject 1%Z 50%Z = kept 1%Z 50%Z
  /\ reject 0%Z 50%Z = Ok ([], []).
Proof. vm_compute. repeat split; reflexivity. Qed.

(** ** Significance scoring *)

Section Scoring.
Context {F : Type} `{Float64 F}.

Lemma np_std_population (a : list F) : np_std a = population_std a.
Proof.
  unfold np_std, np_var, population_std, mean.
  rewrite length_map, Z.sub_0_r, Z.max_l by apply Nat2Z.is_nonneg.
  reflexivity.
Qed.

(** C10. The optional [sigma] argument has no effect: whatever is passed
    for it, the scorer returns what it returns when [sigma] is omitted,
    each amplitude divided by the population standard deviation
    (ddof = 0) of the reference field. *)
Theorem signal_to_noise_ratio_ignores_sigma
    (peak_values map_values : list F) (sigma : option F) :
  _signal_to_noise_ratio peak_values map_values sigma
  = _signal_to_noise_ratio peak_values map_values None
  /\ _signal_to_noise_ratio peak_values map_values sigma
     = Ok (map (fun p => fdiv p (population_std map_values)) peak_values).
Proof.
  unfold _signal_to_noise_ratio. rewrite np_std_population. split; reflexivity.
Qed.


End Scoring.

(** ** The filter cascade *)

Section FilterCascade.
Context {F : Type} `{Float64 F}.
Variable apply_kernel : kernel -> filter_args F -> list F -> list F.

(** C4. On the raw variant the filter stage applies, in this order, the
    Gaussian high-pass kernel of scale kernel_width, the Gaussian
    third-derivative kernel of the same scale along [direction], the
    elementwise absolute value, and the Gaussian low-pass kernel of the
    same scale; the variant it produces is the low-pass result, and
    nothing else of the sky map changes. *)
Theorem filter_is_highpass_derivative_abs_lowpass
    (skymap : SkyMap F) (kernel_width : F) (dir : Z) (orig : list F) :
  data skymap !! "orig"%string = Some orig ->
  _filter apply_kernel skymap kernel_width dir
  = Ok {| data :=
            <["orig_ghpf_g3df_glpf"%string :=
                low_pass apply_kernel kernel_width
                  (map fabs
                     (third_derivative apply_kernel kernel_width dir
                        (high_pass apply_kernel kernel_width orig)))]>
              (data skymap);
          npix := npix skymap;
          opening_angle := opening_angle skymap;
          map_file := map_file skymap |}.
Proof.
  intros Horig. unfold _filter, convolution.
  rewrite Horig. reflexivity.
Qed.

End FilterCascade.

Lemma filter_is_highpass_derivative_abs_lowpass_witness :
  _filter toy_kernel toy_skymap (of_int 5) 1
  = Ok {| data :=
            <["orig_ghpf_g3df_glpf"%string := map of_int [15; 13; 11; 9]%Z]>
              (data toy_skymap);
          npix := 2;
          opening_angle := of_int 20;
          map_file := "Ray_maps.h5" |}.
Proof.
  rewrite (filter_is_highpass_derivative_abs_lowpass toy_kernel toy_skymap
             (of_int 5) 1 (map of_int [0; 1; 2; 3]%Z));
    [ | vm_compute; reflexivity ].
  vm_compute; reflexivity.
Defined.

(** ** The factory [from_sky] *)

Section FromSky.
Context {F : Type} `{Float64 F}.
Variable apply_kernel : kernel -> filter_args F -> list F -> list F.
Variable locatePeaks : list F -> F -> list F -> list F * list (F * F).

(** C5. Whenever peak location yields an empty amplitude sequence,
    [from_sky] raises: no peak table, empty or partial, is returned.  With
    no positions either, and the edge rejector's divisions defined, the
    exception is the failed assertion "No peaks". *)
Theorem from_sky_no_peaks_is_fatal
    (skymap sm : SkyMap F) (on : string) (bin_dsc : BinDsc)
    (kernel_width : F) (dir : Z) (filters : bool)
    (sky_array thresholds map_data : list F) (pos_deg : list (F * F)) :
  (if filters then _filter apply_kernel skymap kernel_width dir
   else Ok skymap) = Ok sm ->
  data sm !! bin_on bin_dsc = Some sky_array ->
  _get_convergence_thresholds sky_array (bin_nbins bin_dsc) = Ok thresholds ->
  data sm !! on = Some map_data ->
  locatePeaks map_data (opening_angle sm) thresholds = ([], pos_deg) ->
  raises (from_sky apply_kernel locatePeaks skymap on bin_dsc kernel_width
            dir filters)
  /\ (pos_deg = [] ->
      npix sm <> 0%Z ->
      feq (fmul (of_int 60) (pixel_len_deg (npix sm) (opening_angle sm)))
          (of_int 0) = false ->
      from_sky apply_kernel locatePeaks skymap on bin_dsc kernel_width
        dir filters
      = Raise (AssertionError "No peaks")).
Proof.
  intros Hprep Hbin Hth Hon Hloc.
  unfold from_sky.
  rewrite Hprep, bind_Ok, Hbin, bind_Ok, Hth, bind_Ok, Hon, bind_Ok, Hloc.
  unfold _remove_peaks_crossing_edge, pixel_len_deg.
  destruct (npix sm =? 0)%Z eqn:Hnpix.
  - split; [apply raises_Raise | intros _ Hne; apply Z.eqb_eq in Hnpix; lia].
  - rewrite bind_Ok.
    destruct (feq (fmul (of_int 60) (fdiv (opening_angle sm)
                                          (of_int (npix sm)))) (of_int 0)).
    + split; [apply raises_Raise | intros _ _ Hfalse; discriminate Hfalse].
    + rewrite bind_Ok.
      destruct pos_deg as [|p pos_deg];
        (split; [apply raises_Raise | intros Hpos; try discriminate Hpos]).
      reflexivity.
Qed.

End FromSky.

Lemma from_sky_no_peaks_is_fatal_witness :
  from_sky toy_kernel locate_nothing toy_skymap "orig"
    {| bin_on := "orig"; bin_nbins := 4 |} (of_int 5) 1 false
  = Raise (AssertionError "No peaks").
Proof.
  edestruct (from_sky_no_peaks_is_fatal toy_kernel locate_nothing
               toy_skymap toy_skymap "orig"
               {| bin_on := "orig"; bin_nbins := 4 |} (of_int 5) 1 false)
    as [_ Hstop];
    [ reflexivity | vm_compute; reflexivity | vm_compute; reflexivity
    | vm_compute; reflexivity | reflexivity | ].
  apply Hstop; [ reflexivity | discriminate | vm_compute; reflexivity ].
Defined.

(** ** Exact arithmetic: the instance [xreal] *)

Lemma Rleb_true (a b : R) : (a <= b)%R -> Rleb a b = true.
Proof. intros Hab; unfold Rleb; destruct (Rle_dec a b); [reflexivity | lra]. Qed.

Lemma Rleb_false (a b : R) : (b < a)%R -> Rleb a b = false.
Proof. intros Hab; unfold Rleb; destruct (Rle_dec a b); [lra | reflexivity]. Qed.

Lemma Rltb_true (a b : R) : (a < b)%R -> Rltb a b = true.
Proof. intros Hab; unfold Rltb; destruct (Rlt_dec a b); [reflexivity | lra]. Qed.

Lemma Rltb_false (a b : R) : (b <= a)%R -> Rltb a b = false.
Proof. intros Hab; unfold Rltb; destruct (Rlt_dec a b); [lra | reflexivity]. Qed.

Lemma Reqb_true (a b : R) : a = b -> Reqb a b = true.
Proof.
  intros Hab; unfold Reqb; destruct (Req_dec_T a b); [reflexivity | contradiction].
Qed.

Lemma Reqb_false (a b : R) : a <> b -> Reqb a b = false.
Proof.
  intros Hab; unfold Reqb; destruct (Req_dec_T a b); [contradiction | reflexivity].
Qed.

Lemma Reqb_eq (a b : R) : Reqb a b = true -> a = b.
Proof. unfold Reqb; destruct (Req_dec_T a b); [trivial | discriminate]. Qed.

Lemma ZceilZ (z : Z) : Zceil (IZR z) = z.
Proof. unfold Zceil. rewrite ZfloorNZ. lia. Qed.

Lemma Rtrunc_IZR (z : Z) : Rtrunc (IZR z) = z.
Proof. unfold Rtrunc. destruct (Rltb (IZR z) 0); [apply ZceilZ | apply ZfloorZ]. Qed.

Lemma np_min_Fin (x : R) (xs : list R) :
  np_min (map Fin (x :: xs)) = Ok (Fin (Rlist_min x xs)).
Proof.
  unfold np_min, Rlist_min; simpl. f_equal.
  revert x; induction xs as [|y ys IH]; intros x; simpl; [reflexivity|].
  rewrite <- IH. f_equal.
  unfold Rleb, Rmin. destruct (Rle_dec x y); reflexivity.
Qed.

Lemma np_max_Fin (x : R) (xs : list R) :
  np_max (map Fin (x :: xs)) = Ok (Fin (Rlist_max x xs)).
Proof.
  unfold np_max, Rlist_max; simpl. f_equal.
  revert x; induction xs as [|y ys IH]; intros x; simpl; [reflexivity|].
  rewrite <- IH. f_equal.
  unfold Rleb, Rmax.
  destruct (Rle_dec y x), (Rle_dec x y); simpl; try reflexivity; f_equal; lra.
Qed.

(** ** Threshold building *)

(** C3, as stated, fails.  At binary64, the field [0, 10] with nbins = 2
    gives 2 boundaries, not 3, the last of them below max(field); the
    field [-20, -19] with nbins = 3 gives a sequence that is not
    increasing; and so does a field with min(field) < 1.1 * max(field)
    whose range is one unit in the last place, [-1.1000000000000003, -1]:
    its 3 boundaries are equal. *)
Lemma thresholds_not_nbins_plus_one_boundaries :
  (exists ts : list float,
     _get_convergence_thresholds (map of_int [0; 10]%Z) 2 = Ok ts
     /\ length ts = 2%nat
     /\ flt (List.last ts (of_int 0)) (of_int 10) = true)
  /\ (exists ts : list float,
        _get_convergence_thresholds (map of_int [-20; -19]%Z) 3 = Ok ts
        /\ strictly_increasing ts = false)
  /\ (exists (ts : list float) (lo hi : float),
        let field := [(-0x1.199999999999bp+0)%float; of_int (-1)] in
        _get_convergence_thresholds field 3 = Ok ts
        /\ np_min field = Ok lo
        /\ np_max field = Ok hi
        /\ flt lo (fmul hi lit_1_1) = true
        /\ ts = [lo; lo; lo]
        /\ strictly_increasing ts = false).
Proof.
  split; [|split].
  - eexists. split; [vm_compute; reflexivity|].
    vm_compute; repeat split; reflexivity.
  - eexists. split; [vm_compute; reflexivity|].
    vm_compute; repeat split; reflexivity.
  - eexists _, _, _. cbv zeta.
    split; [vm_compute; reflexivity|].
    split; [vm_compute; reflexivity|].
    split; [vm_compute; reflexivity|].
    split; [vm_compute; reflexivity|].
    split; vm_compute; reflexivity.
Qed.

Section ThresholdItems.
Context {F : Type} `{Float64 F}.

(* What an arange holds when it is returned: the items of [arange_item],
   as many as the integer ceiling of the quotient, unless the quotient is
   zero or its ceiling is 2^63. *)
Lemma np_arange_Ok_inv (start stop step : F) (ts : list F) :
  np_arange start stop step = Ok ts ->
  (exists len : nat, ts = map (arange_item start step) (seq 0 len))
  /\ exists n : Z,
       to_int (fceil (fdiv (fsub stop start) step)) = Some n
       /\ (feq (fdiv (fsub stop start) step) (of_int 0) = false ->
           (n <= NPY_MAX_INTP)%Z ->
           length ts = Z.to_nat n).
Proof.
  unfold np_arange. cbv zeta.
  destruct (is_nan (fceil (fdiv (fsub stop start) step))); [discriminate|].
  destruct (to_int (fceil (fdiv (fsub stop start) step))) as [n|];
    [|discriminate].
  destruct (negb ((NPY_MIN_INTP <=? n)%Z && (n <=? NPY_MAX_INTP + 1)%Z));
    [discriminate|].
  match goal with
  | |- context [(NPY_MAX_INTP / 8 <? ?len)%Z] =>
      destruct (NPY_MAX_INTP / 8 <? len)%Z; [discriminate|]
  end.
  intros Hok. injection Hok as <-.
  split; [eexists; reflexivity|].
  exists n. split; [reflexivity|].
  intros Hq Hn. rewrite Hq, andb_false_l, length_map, length_seq.
  destruct (n =? NPY_MAX_INTP + 1)%Z eqn:Hwrap;
    [apply Z.eqb_eq in Hwrap; lia | reflexivity].
Qed.

(** C3, amended.  For every field and every nbins, whenever the threshold
    builder returns, its boundaries are equally spaced from the minimum of
    the field: the first is min(field), the second is min(field) + w with
    w = (1.1 * max(field) - min(field)) / nbins, and the i-th, from the
    third on, is min(field) + i * ((min(field) + w) - min(field)), each as
    float64 computes it.  Their number is the integer ceiling of the
    quotient (1.1 * max(field) - min(field)) / w as float64 computes it
    (for a quotient that is not zero and a ceiling below 2^63).  Neither
    nbins + 1 boundaries, nor an increasing order, nor a last boundary at
    or above max(field) is part of the statement. *)
Theorem thresholds_equally_spaced_from_min
    (sky_array : list F) (nbins : Z) (ts : list F) :
  _get_convergence_thresholds sky_array nbins = Ok ts ->
  exists lo hi : F,
    np_min sky_array = Ok lo
    /\ np_max sky_array = Ok hi
    /\ let w := fdiv (fsub (fmul hi lit_1_1) lo) (of_int nbins) in
       let q := fdiv (fsub (fmul hi lit_1_1) lo) w in
       (forall (i : nat) (t : F),
          nth_error ts i = Some t ->
          t = match i with
              | O => lo
              | S O => fadd lo w
              | _ => fadd lo (fmul (of_int (Z.of_nat i))
                                   (fsub (fadd lo w) lo))
              end)
       /\ exists n : Z,
            to_int (fceil q) = Some n
            /\ (feq q (of_int 0) = false ->
                (n <= NPY_MAX_INTP)%Z ->
                length ts = Z.to_nat n).
Proof.
  unfold _get_convergence_thresholds.
  destruct (np_min sky_array) as [lo|e]; [|discriminate].
  destruct (np_max sky_array) as [hi|e]; [|discriminate].
  rewrite !bind_Ok. intros Hts.
  apply np_arange_Ok_inv in Hts.
  destruct Hts as ((len & ->) & n & Hn & Hlen).
  exists lo, hi. split; [reflexivity|]. split; [reflexivity|].
  cbv zeta. split.
  - intros i t Hi.
    rewrite nth_error_map in Hi.
    destruct (nth_error (seq 0 len) i) as [j|] eqn:Hj; [|discriminate Hi].
    assert (Hji : j = i).
    { assert (Hlt : (i < length (seq 0 len))%nat)
        by (apply nth_error_Some; rewrite Hj; discriminate).
      rewrite length_seq in Hlt.
      apply (nth_error_nth _ _ O) in Hj. rewrite seq_nth in Hj by exact Hlt.
      lia. }
    subst j. injection Hi as <-.
    destruct i as [|[|i]]; reflexivity.
  - exists n. split; assumption.
Qed.

End ThresholdItems.

Lemma thresholds_equally_spaced_from_min_witness :
  exists (ts : list float) (lo hi : float),
    _get_convergence_thresholds (map of_int [0; 10]%Z) 2 = Ok ts
    /\ np_min (map of_int [0; 10]%Z) = Ok lo
    /\ np_max (map of_int [0; 10]%Z) = Ok hi
    /\ nth_error ts 0 = Some lo
    /\ nth_error ts 1
       = Some (fadd lo (fdiv (fsub (fmul hi lit_1_1) lo) (of_int 2)))
    /\ length ts = 2%nat.
Proof.
  destruct (_get_convergence_thresholds (map of_int [0; 10]%Z) 2)
    as [ts|e] eqn:Hrun; [|vm_compute in Hrun; discriminate Hrun].
  destruct (thresholds_equally_spaced_from_min _ _ _ Hrun)
    as (lo & hi & Hlo & Hhi & Hitems & n & Hn & Hlen).
  exists ts, lo, hi. split; [reflexivity|].
  split; [exact Hlo|]. split; [exact Hhi|].
  assert (Hts : ts = [of_int 0; fdiv (of_int 11) (of_int 2)])
    by (vm_compute in Hrun; now injection Hrun as <-).
  assert (Ht0 := Hitems 0%nat (of_int 0)).
  assert (Ht1 := Hitems 1%nat (fdiv (of_int 11) (of_int 2))).
  rewrite Hts in Ht0, Ht1 |- *. cbn [nth_error] in Ht0, Ht1 |- *.
  rewrite <- (Ht1 eq_refl), <- (Ht0 eq_refl).
  repeat split; reflexivity.
Defined.

(* At binary64 the number of boundaries follows the rounding of the
   quotient: on the field [0, 10] there are nbins of them for nbins = 2
   and nbins + 1, the last one 1.1 * max(field), for nbins = 15. *)
Lemma thresholds_count_follows_rounding :
  (exists ts : list float,
     _get_convergence_thresholds (map of_int [0; 10]%Z) 2 = Ok ts
     /\ length ts = 2%nat)
  /\ (exists ts : list float,
        _get_convergence_thresholds (map of_int [0; 10]%Z) 15 = Ok ts
        /\ length ts = 16%nat
        /\ List.last ts (of_int 0) = of_int 11).
Proof.
  split; eexists; (split; [vm_compute; reflexivity | ]);
    vm_compute; repeat split; reflexivity.
Qed.



(* The all-zero field at binary64: the degenerate range of C8. *)
Lemma thresholds_zero_field_raises_binary64 :
  _get_convergence_thresholds (F := float) (map of_int [0; 0; 0]%Z) 100
  = Raise ValueError.
Proof. vm_compute; reflexivity. Qed.

(** ** Significance scoring in exact arithmetic *)

Lemma fold_add_Fin (l : list R) (a : R) :
  fold_left XR.add (map Fin l) (Fin a) = Fin (fold_left Rplus l a).
Proof. revert a; induction l as [|x l IH]; intros a; simpl; [reflexivity | apply IH]. Qed.

(* Fewer than 8 values are added in index order. *)
Lemma np_sum_Fin (l : list R) :
  (length l < 8)%nat -> np_sum (map Fin l) = Fin (Rsum l).
Proof.
  intros Hlen. unfold np_sum, pairwise_sum.
  destruct l as [|x l]; [cbn; f_equal; unfold Rsum; simpl; lra|].
  cbn [length map pairwise_sum_rec]. rewrite length_map.
  apply Nat.ltb_lt in Hlen. cbn [length] in Hlen. rewrite Hlen.
  change (of_int 0) with (Fin 0).
  change (Fin x :: map Fin l) with (map Fin (x :: l)).
  rewrite fold_add_Fin. cbn. f_equal. unfold Rsum. lra.
Qed.

Lemma fold_plus_nonneg (l : list R) (a : R) :
  Forall (Rle 0) l -> (0 <= a)%R -> (0 <= fold_left Rplus l a)%R.
Proof.
  intros Hl; revert a; induction Hl as [|x l Hx Hl IH]; intros a Ha; simpl;
    [exact Ha | apply IH; lra].
Qed.

Lemma Rvar_nonneg (l : list R) : (0 <= Rvar l)%R.
Proof.
  unfold Rvar, Rmean at 1. rewrite length_map.
  apply Rmult_le_pos.
  - apply fold_plus_nonneg; [|lra].
    apply List.Forall_forall; intros y Hy. apply in_map_iff in Hy.
    destruct Hy as (r & <- & _). apply Rle_0_sqr.
  - destruct l as [|x l].
    + change (0 <= / 0)%R. rewrite Rinv_0. lra.
    + left; apply Rinv_0_lt_compat, IZR_lt. simpl; lia.
Qed.

Lemma np_std_nil : np_std (F := xreal) [] = NaN.
Proof.
  unfold np_std, np_var.
  change (Z.of_nat (length (@nil xreal))) with 0%Z.
  change (Z.max (0 - 0) 0) with 0%Z.
  cbn. rewrite (Reqb_true 0 0 eq_refl), (Reqb_true (0 + 0) 0) by lra.
  reflexivity.
Qed.

Lemma div_Fin (a b : R) : b <> 0%R -> fdiv (Fin a) (Fin b) = Fin (a / b).
Proof. intros Hb. cbn. now rewrite (Reqb_false b 0 Hb). Qed.

Lemma squared_deviations_Fin (mu : R) (l : list R) :
  map (fun v => let d := fsub v (Fin mu) in fmul d d) (map Fin l)
  = map Fin (map (fun r => ((r + - mu) * (r + - mu))%R) l).
Proof. rewrite !map_map. reflexivity. Qed.

Lemma np_std_Fin (x : R) (l : list R) :
  (length (x :: l) < 8)%nat ->
  np_std (map Fin (x :: l)) = Fin (R_sqrt.sqrt (Rvar (x :: l))).
Proof.
  intros Hlen.
  assert (Hn : IZR (Z.of_nat (length (x :: l))) <> 0%R).
  { apply not_0_IZR. simpl; lia. }
  unfold np_std, np_var. cbv zeta.
  rewrite length_map, Z.sub_0_r, Z.max_l by apply Nat2Z.is_nonneg.
  rewrite np_sum_Fin by exact Hlen.
  change (of_int (Z.of_nat (length (x :: l))))
    with (Fin (IZR (Z.of_nat (length (x :: l))))).
  rewrite (div_Fin _ _ Hn).
  rewrite (squared_deviations_Fin (Rsum (x :: l)
                                   / IZR (Z.of_nat (length (x :: l))))).
  rewrite np_sum_Fin by (now rewrite length_map).
  rewrite (div_Fin _ _ Hn).
  pose proof (Rvar_nonneg (x :: l)) as Hv.
  unfold Rvar, Rmean in *. rewrite length_map in *.
  cbn [fsqrt xreal_Float64 XR.sqrt]. now rewrite Rltb_false by exact Hv.
Qed.

(** ** Significance scoring at binary64 *)





(** ** Catalog matching *)

(** C1 at a failing input: two peaks at (0, 0) and (1, 0), a catalog with
    records at (0, 0) and (5, 0).  [find_nearest] stores, row by row, the
    nearest peak of each catalog record (indices 0, 1 and distances 0, 4)
    and returns None; matching each peak to its nearest catalog record
    gives indices 0, 0 and distances 0, 1.  With a catalog of one record
    the assignment of a one-element column to the two-row table raises. *)
Lemma find_nearest_matches_catalog_records_to_peaks :
  let peaks := combine (x_deg (Dipoles_data toy_dipoles))
                       (y_deg (Dipoles_data toy_dipoles)) in
  let catalog : list (float * float) :=
    [(of_int 0, of_int 0); (of_int 5, of_int 0)] in
  (exists self' : Dipoles float,
     find_nearest toy_dipoles catalog = Ok (self', None)
     /\ index_dipole (Dipoles_data self') = Some [0; 1]%nat
     /\ distances (Dipoles_data self') = Some (map of_int [0; 4]%Z))
  /\ match_nearest peaks catalog
     = Ok ([0; 0]%nat, map of_int [0; 1]%Z)
  /\ find_nearest toy_dipoles [(of_int 0, of_int 0)] = Raise ValueError
  /\ match_nearest peaks [(of_int 0, of_int 0)]
     = Ok ([0; 0]%nat, map of_int [0; 1]%Z).
Proof.
  split; [eexists; split; [vm_compute; reflexivity | split; reflexivity]|].
  repeat split; vm_compute; reflexivity.
Qed.

Section Neighbours.
Context {F : Type} `{Float64 F}.

Lemma check_array_Ok_inv (X X1 : list (F * F)) :
  check_array X = Ok X1 -> X1 = X /\ X <> [] /\ all_finite X = true.
Proof.
  unfold check_array. destruct (all_finite X); [|discriminate].
  destruct X as [|x X]; [discriminate|].
  intros Hok. injection Hok as <-. repeat split. discriminate.
Qed.

(* A search that returns has validated both arrays. *)
Lemma kneighbors_Ok_inv (X Y : list (F * F)) (out : list F * list nat) :
  kneighbors X Y = Ok out ->
  exists (x0 : F * F) (X' : list (F * F)),
    X = x0 :: X'
    /\ Y <> []
    /\ all_finite X = true
    /\ all_finite Y = true
    /\ out = (map fst (map (nearest x0 X') Y),
              map snd (map (nearest x0 X') Y)).
Proof.
  unfold kneighbors.
  destruct (check_array X) as [X1|e] eqn:HX; [|discriminate].
  apply check_array_Ok_inv in HX. destruct HX as (-> & HXne & HXfin).
  rewrite bind_Ok.
  destruct (check_array Y) as [Y1|e] eqn:HY; [|discriminate].
  apply check_array_Ok_inv in HY. destruct HY as (-> & HYne & HYfin).
  rewrite bind_Ok.
  destruct X as [|x0 X']; [contradiction|].
  intros Hok. injection Hok as <-.
  exists x0, X'. auto.
Qed.

Lemma kneighbors_accepts (x0 y0 : F * F) (X' Y' : list (F * F)) :
  all_finite (x0 :: X') = true ->
  all_finite (y0 :: Y') = true ->
  kneighbors (x0 :: X') (y0 :: Y')
  = Ok (map fst (map (nearest x0 X') (y0 :: Y')),
        map snd (map (nearest x0 X') (y0 :: Y'))).
Proof.
  intros HX HY. unfold kneighbors, check_array.
  rewrite HX. cbn [negb]. rewrite bind_Ok, HY. reflexivity.
Qed.

Lemma kneighbors_rejects (X Y : list (F * F)) :
  X = [] \/ Y = [] \/ all_finite X = false \/ all_finite Y = false ->
  kneighbors X Y = Raise ValueError.
Proof.
  intros Hbad. unfold kneighbors, check_array.
  destruct (all_finite X); [|reflexivity].
  destruct X as [|x0 X']; [reflexivity|].
  cbn [negb]. rewrite bind_Ok.
  destruct (all_finite Y); [|reflexivity].
  destruct Y as [|y0 Y']; [reflexivity|].
  destruct Hbad as [Hbad|[Hbad|[Hbad|Hbad]]]; discriminate Hbad.
Qed.

End Neighbours.

(* What [find_nearest] computes when it succeeds: the matcher's answer with
   the roles exchanged, each catalog record matched against the peaks, one
   entry per catalog record; nothing is returned. *)
Lemma find_nearest_exchanges_roles {F : Type} `{Float64 F}
    (self self' : Dipoles F) (df2 : list (F * F))
    (returned : option (PeakFrame F)) :
  find_nearest self df2 = Ok (self', returned) ->
  exists (indices : list nat) (dists : list F),
    match_nearest df2 (combine (x_deg (Dipoles_data self))
                               (y_deg (Dipoles_data self)))
    = Ok (indices, dists)
    /\ index_dipole (Dipoles_data self') = Some indices
    /\ distances (Dipoles_data self') = Some dists
    /\ length indices = length df2
    /\ length df2 = length (deltaT (Dipoles_data self))
    /\ returned = None.
Proof.
  unfold find_nearest, match_nearest.
  destruct (kneighbors _ df2) as [out|e] eqn:Hsearch; [|discriminate].
  apply kneighbors_Ok_inv in Hsearch.
  destruct Hsearch as (x0 & X & -> & _ & _ & _ & ->).
  rewrite bind_Ok. unfold pd_setitem.
  rewrite !length_map.
  destruct (length df2 =? length (deltaT (Dipoles_data self)))%nat
    eqn:Hrows; [|discriminate].
  rewrite !bind_Ok. intros Hok. injection Hok as <- <-.
  apply Nat.eqb_eq in Hrows.
  eexists _, _. repeat split; try reflexivity.
  - now rewrite !length_map.
  - exact Hrows.
Qed.

(** * Further properties of the pipeline *)

(** ** Paired columns *)

Lemma combine_fst_snd {A B : Type} (l : list (A * B)) :
  combine (map fst l) (map snd l) = l.
Proof.
  induction l as [|[a b] l IH]; simpl; [reflexivity | now rewrite IH].
Qed.

Lemma map_fst_combine {A B : Type} (a : list A) (b : list B) :
  length a = length b -> map fst (combine a b) = a.
Proof.
  revert b; induction a as [|x a IH]; intros [|y b] Hlen; simpl in *;
    try reflexivity; try discriminate Hlen.
  rewrite IH; [reflexivity | now injection Hlen].
Qed.

Lemma map_snd_combine {A B : Type} (a : list A) (b : list B) :
  length a = length b -> map snd (combine a b) = b.
Proof.
  revert b; induction a as [|x a IH]; intros [|y b] Hlen; simpl in *;
    try reflexivity; try discriminate Hlen.
  rewrite IH; [reflexivity | now injection Hlen].
Qed.

Lemma filter_filter_same {A : Type} (g : A -> bool) (l : list A) :
  List.filter g (List.filter g l) = List.filter g l.
Proof.
  induction l as [|a l IH]; simpl; [reflexivity|].
  destruct (g a) eqn:Hg; simpl; [rewrite Hg, IH|]; auto.
Qed.

(** ** The edge rejector: outcomes and composition *)

Section EdgeRejector.
Context {F : Type} `{Float64 F}.

(* The mask of the rejector, row by row. *)
Lemma edge_mask_rows (npix : Z) (opening_angle kernel_width : F)
    (pos : list (F * F)) :
  let bufferlen :=
    fceil (fdiv kernel_width
             (fmul (of_int 60) (fdiv opening_angle (of_int npix)))) in
  let inside v :=
    fle v (fsub (of_int (npix - 1)) bufferlen) && fle bufferlen v in
  zip_with andb
    (map inside
       (map (fun p => fdiv (fmul p.1 (of_int npix)) opening_angle) pos))
    (map inside
       (map (fun p => fdiv (fmul p.2 (of_int npix)) opening_angle) pos))
  = map (retained npix opening_angle kernel_width) pos.
Proof.
  intros bufferlen inside. rewrite !map_map, zip_with_map_same.
  apply map_ext; intros [x y].
  unfold retained, buffer_px, pixel_len_deg, to_px, inside, bufferlen; simpl.
  f_equal; apply andb_comm.
Qed.

(* With its divisions defined, the rejector selects both columns with the
   mask of [retained]. *)
Lemma edge_rejector_masks (npix : Z) (opening_angle kernel_width : F)
    (sigma : list F) (pos : list (F * F)) :
  npix <> 0%Z ->
  feq (fmul (of_int 60) (pixel_len_deg npix opening_angle)) (of_int 0)
    = false ->
  _remove_peaks_crossing_edge npix opening_angle kernel_width sigma pos
  = (let indx := map (retained npix opening_angle kernel_width) pos in
     sigma' ← np_mask sigma indx;
     pos' ← np_mask pos indx;
     Ok (sigma', pos')).
Proof.
  intros Hnpix Hden. unfold _remove_peaks_crossing_edge.
  apply Z.eqb_neq in Hnpix. rewrite Hnpix, bind_Ok.
  unfold pixel_len_deg in Hden. rewrite Hden, bind_Ok.
  cbv zeta. rewrite (edge_mask_rows npix opening_angle kernel_width pos).
  reflexivity.
Qed.

Lemma edge_rejector_on_columns (npix : Z) (opening_angle kernel_width : F)
    (sigma : list F) (pos : list (F * F)) :
  npix <> 0%Z ->
  feq (fmul (of_int 60) (pixel_len_deg npix opening_angle)) (of_int 0)
    = false ->
  length sigma = length pos ->
  _remove_peaks_crossing_edge npix opening_angle kernel_width sigma pos
  = Ok (map fst (List.filter
                   (fun p => retained npix opening_angle kernel_width p.2)
                   (combine sigma pos)),
        map snd (List.filter
                   (fun p => retained npix opening_angle kernel_width p.2)
                   (combine sigma pos))).
Proof.
  intros Hnpix Hden Hlen.
  rewrite (edge_rejector_masks _ _ _ _ _ Hnpix Hden). cbv zeta.
  set (peaks := combine sigma pos).
  assert (Hs : sigma = map fst peaks)
    by (symmetry; apply map_fst_combine, Hlen).
  assert (Hp : pos = map snd peaks)
    by (symmetry; apply map_snd_combine, Hlen).
  clearbody peaks. subst sigma pos. rewrite map_map.
  rewrite (np_mask_rows fst
             (fun p => retained npix opening_angle kernel_width p.2)),
    bind_Ok.
  rewrite (np_mask_rows snd
             (fun p => retained npix opening_angle kernel_width p.2)),
    bind_Ok.
  reflexivity.
Qed.

Lemma edge_rejector_zero_divisor (npix : Z) (opening_angle kernel_width : F)
    (sigma : list F) (pos : list (F * F)) :
  npix = 0%Z
  \/ feq (fmul (of_int 60) (pixel_len_deg npix opening_angle)) (of_int 0)
     = true ->
  _remove_peaks_crossing_edge npix opening_angle kernel_width sigma pos
  = Raise ZeroDivisionError.
Proof.
  unfold _remove_peaks_crossing_edge, pixel_len_deg.
  destruct (npix =? 0)%Z eqn:Hnpix; [reflexivity|].
  intros [Hzero|Hden]; [apply Z.eqb_neq in Hnpix; contradiction|].
  now rewrite bind_Ok, Hden.
Qed.

Lemma edge_rejector_length_mismatch (npix : Z)
    (opening_angle kernel_width : F) (sigma : list F) (pos : list (F * F)) :
  npix <> 0%Z ->
  feq (fmul (of_int 60) (pixel_len_deg npix opening_angle)) (of_int 0)
    = false ->
  length sigma <> length pos ->
  _remove_peaks_crossing_edge npix opening_angle kernel_width sigma pos
  = Raise IndexError.
Proof.
  intros Hnpix Hden Hlen.
  rewrite (edge_rejector_masks _ _ _ _ _ Hnpix Hden). cbv zeta.
  assert (Hsigma : np_mask sigma
                     (map (retained npix opening_angle kernel_width) pos)
                   = Raise IndexError).
  { unfold np_mask. rewrite length_map.
    apply Nat.eqb_neq in Hlen. now rewrite Hlen. }
  now rewrite Hsigma.
Qed.

Lemma edge_rejector_Ok_inv (npix : Z) (opening_angle kernel_width : F)
    (sigma : list F) (pos : list (F * F)) (out : list F * list (F * F)) :
  _remove_peaks_crossing_edge npix opening_angle kernel_width sigma pos
    = Ok out ->
  npix <> 0%Z
  /\ feq (fmul (of_int 60) (pixel_len_deg npix opening_angle)) (of_int 0)
     = false
  /\ length sigma = length pos.
Proof.
  intros Hok.
  destruct (Z.eq_dec npix 0%Z) as [Hnpix|Hnpix].
  { rewrite edge_rejector_zero_divisor in Hok by (left; exact Hnpix).
    discriminate Hok. }
  destruct (feq (fmul (of_int 60) (pixel_len_deg npix opening_angle))
                (of_int 0)) eqn:Hden.
  { rewrite edge_rejector_zero_divisor in Hok by (right; exact Hden).
    discriminate Hok. }
  destruct (Nat.eq_dec (length sigma) (length pos)) as [Hlen|Hlen].
  - auto.
  - rewrite (edge_rejector_length_mismatch _ _ _ _ _ Hnpix Hden Hlen) in Hok.
    discriminate Hok.
Qed.

(** X1. The edge rejector raises ZeroDivisionError exactly when npix is 0
    or 60 * (opening_angle / npix) compares equal to 0; short of that it
    raises IndexError exactly when there are not as many amplitudes as
    positions; in every other case it returns. *)
Theorem remove_peaks_crossing_edge_outcomes
    (npix : Z) (opening_angle kernel_width : F)
    (sigma : list F) (pos : list (F * F)) :
  let zero_divisor :=
    npix = 0%Z
    \/ feq (fmul (of_int 60) (pixel_len_deg npix opening_angle)) (of_int 0)
       = true in
  let r :=
    _remove_peaks_crossing_edge npix opening_angle kernel_width sigma pos in
  (r = Raise ZeroDivisionError <-> zero_divisor)
  /\ (r = Raise IndexError
      <-> ~ zero_divisor /\ length sigma <> length pos)
  /\ ((exists out, r = Ok out)
      <-> ~ zero_divisor /\ length sigma = length pos).
Proof.
  intros zero_divisor r.
  assert (Hdec : zero_divisor \/ ~ zero_divisor).
  { unfold zero_divisor.
    destruct (Z.eq_dec npix 0%Z) as [Hn|Hn]; [left; left; exact Hn|].
    destruct (feq _ _); [left; right; reflexivity|].
    right; intros [Hzero | Hd]; [contradiction | discriminate Hd]. }
  destruct Hdec as [Hz|Hz].
  { assert (Hr : r = Raise ZeroDivisionError)
      by apply (edge_rejector_zero_divisor _ _ _ _ _ Hz).
    rewrite Hr. split; [|split]; (split; intros Hx);
      try tauto; try discriminate Hx.
    destruct Hx as [out Hout]; discriminate Hout. }
  assert (Hnpix : npix <> 0%Z) by (intros Hn; apply Hz; left; exact Hn).
  assert (Hden : feq (fmul (of_int 60) (pixel_len_deg npix opening_angle))
                     (of_int 0) = false).
  { apply not_true_is_false. intros Hd. apply Hz. right. exact Hd. }
  destruct (Nat.eq_dec (length sigma) (length pos)) as [Hlen|Hlen].
  - assert (Hr : exists out, r = Ok out).
    { eexists. apply (edge_rejector_on_columns _ _ _ _ _ Hnpix Hden Hlen). }
    destruct Hr as [out Hr]. rewrite Hr.
    split; [|split]; (split; intros Hx);
      try tauto; try discriminate Hx; try (now exists out).
  - assert (Hr : r = Raise IndexError)
      by apply (edge_rejector_length_mismatch _ _ _ _ _ Hnpix Hden Hlen).
    rewrite Hr. split; [|split]; (split; intros Hx);
      try tauto; try discriminate Hx.
    destruct Hx as [out Hout]; discriminate Hout.
Qed.

(** X2. Edge rejection is idempotent: applied to its own output, with the
    same map geometry and kernel width, it returns that output
    unchanged. *)
Theorem remove_peaks_crossing_edge_idempotent
    (npix : Z) (opening_angle kernel_width : F)
    (sigma sigma' : list F) (pos pos' : list (F * F)) :
  _remove_peaks_crossing_edge npix opening_angle kernel_width sigma pos
    = Ok (sigma', pos') ->
  _remove_peaks_crossing_edge npix opening_angle kernel_width sigma' pos'
    = Ok (sigma', pos').
Proof.
  intros Hfirst.
  destruct (edge_rejector_Ok_inv _ _ _ _ _ _ Hfirst) as (Hnpix & Hden & Hlen).
  rewrite (edge_rejector_on_columns _ _ _ _ _ Hnpix Hden Hlen) in Hfirst.
  injection Hfirst as <- <-.
  rewrite (edge_rejector_on_columns _ _ _ _ _ Hnpix Hden)
    by now rewrite !length_map.
  now rewrite combine_fst_snd, filter_filter_same.
Qed.

End EdgeRejector.

Lemma remove_peaks_crossing_edge_idempotent_witness :
  _remove_peaks_crossing_edge 100 (of_int 20) (of_int 5)
      [of_int 8 : float]
      [(px_to_deg 100 (of_int 20) 50, px_to_deg 100 (of_int 20) 50)]
  = Ok ([of_int 8 : float],
        [(px_to_deg 100 (of_int 20) 50, px_to_deg 100 (of_int 20) 50)]).
Proof.
  apply (remove_peaks_crossing_edge_idempotent 100 (of_int 20) (of_int 5)
           (map of_int [7; 8; 9]%Z) [of_int 8]
           [ (px_to_deg 100 (of_int 20) 0, px_to_deg 100 (of_int 20) 50);
             (px_to_deg 100 (of_int 20) 50, px_to_deg 100 (of_int 20) 50);
             (px_to_deg 100 (of_int 20) 50, px_to_deg 100 (of_int 20) 99) ]).
  vm_compute; reflexivity.
Defined.

(** ** The edge rejector in exact arithmetic *)

Lemma XR_le_trans (a b c : xreal) :
  XR.le a b = true -> XR.le b c = true -> XR.le a c = true.
Proof.
  destruct a as [a| | |], b as [b| | |], c as [c| | |]; simpl;
    try discriminate; try reflexivity.
  unfold Rleb. destruct (Rle_dec a b), (Rle_dec b c), (Rle_dec a c);
    try discriminate; try reflexivity. lra.
Qed.

Lemma filter_none {A : Type} (g : A -> bool) (l : list A) :
  (forall a, g a = false) -> List.filter g l = [].
Proof.
  intros Hg. induction l as [|a l IH]; simpl; [reflexivity|].
  now rewrite Hg.
Qed.

(* The buffer for finite arguments: the ceiling of the kernel width in
   pixels. *)
Lemma buffer_px_Fin (npix : Z) (opening_angle kernel_width : R) (b : Z) :
  npix <> 0%Z ->
  opening_angle <> 0%R ->
  (IZR b - 1 < kernel_width / (60 * (opening_angle / IZR npix)) <= IZR b)%R ->
  buffer_px npix (Fin opening_angle) (Fin kernel_width) = Fin (IZR b).
Proof.
  intros Hnpix Hoa Hb.
  assert (HnR : IZR npix <> 0%R) by now apply not_0_IZR.
  assert (Hden : (60 * (opening_angle / IZR npix))%R <> 0%R).
  { intros H0. apply Rmult_integral in H0. destruct H0 as [H0|H0]; [lra|].
    unfold Rdiv in H0. apply Rmult_integral in H0.
    destruct H0 as [H0|H0]; [contradiction|].
    now apply (Rinv_neq_0_compat (IZR npix)). }
  unfold buffer_px, pixel_len_deg. cbn.
  rewrite (Reqb_false (IZR npix) 0 HnR). cbn.
  rewrite (Reqb_false _ 0 Hden). cbn.
  now rewrite (Zceil_eq b).
Qed.



(** ** The threshold builder: where it starts *)

Section ThresholdBuilder.
Context {F : Type} `{Float64 F}.

(* np.min returns one of the values of the array. *)
Lemma np_min_member (a : list F) (lo : F) : np_min a = Ok lo -> In lo a.
Proof.
  destruct a as [|x xs]; [discriminate|].
  unfold np_min. intros Hok. injection Hok as <-.
  assert (Hfold : forall (l : list F) (io1 : F),
             let m := fold_left
                        (fun io1 in2 =>
                           if fle io1 in2 || is_nan io1 then io1 else in2)
                        l io1 in
             m = io1 \/ In m l).
  { induction l as [|y l IH]; intros io1; [left; reflexivity|].
    cbn [fold_left].
    destruct (IH (if fle io1 y || is_nan io1 then io1 else y)) as [Heq|Hin].
    - cbv zeta in Heq. rewrite Heq.
      destruct (fle io1 y || is_nan io1); [left | right; left]; reflexivity.
    - right; right; exact Hin. }
  destruct (Hfold xs x) as [Heq|Hin]; [left; symmetry; exact Heq | right; exact Hin].
Qed.

(** X21. Whenever the threshold builder returns a non-empty sequence, its
    first threshold is a value of the field itself, the one np.min
    selects. *)
Theorem thresholds_start_at_a_field_value
    (sky_array : list F) (nbins : Z) (t : F) (ts : list F) :
  _get_convergence_thresholds sky_array nbins = Ok (t :: ts) ->
  np_min sky_array = Ok t /\ In t sky_array.
Proof.
  unfold _get_convergence_thresholds.
  destruct (np_min sky_array) as [lo|e] eqn:Hlo; [|discriminate].
  destruct (np_max sky_array) as [hi|e]; [|discriminate].
  rewrite !bind_Ok. intros Hts.
  apply np_arange_Ok_inv in Hts. destruct Hts as ((len & Hitems) & _).
  destruct len as [|len]; [discriminate Hitems|].
  cbn [seq map arange_item] in Hitems. injection Hitems as -> _.
  split; [reflexivity | now apply np_min_member].
Qed.

End ThresholdBuilder.

Lemma thresholds_start_at_a_field_value_witness :
  exists (t : float) (ts : list float),
    _get_convergence_thresholds (map of_int [3; 0; 10]%Z) 2 = Ok (t :: ts)
    /\ In t (map of_int [3; 0; 10]%Z).
Proof.
  destruct (_get_convergence_thresholds (map of_int [3; 0; 10]%Z) 2)
    as [[|t ts]|e] eqn:Hrun;
    [vm_compute in Hrun; discriminate Hrun | | vm_compute in Hrun; discriminate Hrun].
  exists t, ts. split; [reflexivity|].
  exact (proj2 (thresholds_start_at_a_field_value _ _ _ _ Hrun)).
Defined.

(** ** The threshold builder in exact arithmetic *)

(* The arange of the builder for any non-zero integer quotient within the
   index range: a negative quotient gives the empty array. *)
Lemma np_arange_Fin_quotient (start stop step : R) (n : Z) :
  step <> 0%R ->
  ((stop + - start) / step)%R = IZR n ->
  n <> 0%Z ->
  (NPY_MIN_INTP <= n <= NPY_MAX_INTP / 8)%Z ->
  np_arange (Fin start) (Fin stop) (Fin step)
  = Ok (map (fun i => Fin (start + INR i * step)) (seq 0 (Z.to_nat n))).
Proof.
  intros Hstep Hquot Hn0 [Hn1 Hn2].
  assert (HnR : IZR n <> 0%R) by now apply not_0_IZR.
  assert (Hmax : (NPY_MAX_INTP / 8 < NPY_MAX_INTP)%Z) by reflexivity.
  assert (Hval : fdiv (fsub (Fin stop) (Fin start)) (Fin step) = Fin (IZR n)).
  { change (fsub (Fin stop) (Fin start)) with (Fin (stop + - start)).
    now rewrite (div_Fin _ _ Hstep), Hquot. }
  unfold np_arange. cbv zeta. rewrite Hval.
  change (fceil (Fin (IZR n))) with (Fin (IZR (Zceil (IZR n)))).
  rewrite ZceilZ.
  change (is_nan (Fin (IZR n))) with false.
  change (to_int (Fin (IZR n))) with (Some (Rtrunc (IZR n))).
  rewrite Rtrunc_IZR.
  change (feq (Fin (IZR n)) (of_int 0)) with (Reqb (IZR n) 0).
  rewrite (Reqb_false (IZR n) 0 HnR), andb_false_l.
  replace ((NPY_MIN_INTP <=? n)%Z && (n <=? NPY_MAX_INTP + 1)%Z) with true
    by (symmetry; apply andb_true_intro; split; apply Z.leb_le; lia).
  replace (n =? NPY_MAX_INTP + 1)%Z with false
    by (symmetry; apply Z.eqb_neq; lia).
  replace (NPY_MAX_INTP / 8 <? n)%Z with false
    by (symmetry; apply Z.ltb_ge; lia).
  cbn [negb]. f_equal.
  apply map_ext; intros [|[|i]].
  - cbn. f_equal; lra.
  - cbn. f_equal; lra.
  - unfold arange_item. cbn -[Z.of_nat INR]. f_equal.
    rewrite <- INR_IZR_INZ. lra.
Qed.

(* The builder on a finite field with a non-degenerate range. *)
Lemma thresholds_explicit (x : R) (xs : list R) (nbins : Z) :
  let lo := Rlist_min x xs in
  let hi := (Rlist_max x xs * (11 / 10))%R in
  let w := ((hi - lo) / IZR nbins)%R in
  hi <> lo ->
  nbins <> 0%Z ->
  (NPY_MIN_INTP <= nbins <= NPY_MAX_INTP / 8)%Z ->
  _get_convergence_thresholds (map Fin (x :: xs)) nbins
  = Ok (map (fun i => Fin (lo + INR i * w)) (seq 0 (Z.to_nat nbins))).
Proof.
  intros lo hi w Hlohi Hn0 Hn.
  assert (HnR : IZR nbins <> 0%R) by now apply not_0_IZR.
  unfold _get_convergence_thresholds.
  rewrite np_min_Fin, bind_Ok, np_max_Fin, bind_Ok.
  fold lo. cbn. fold hi.
  rewrite (Reqb_false (IZR nbins) 0 HnR).
  replace ((hi + - lo) / IZR nbins)%R with w by (unfold w; field; exact HnR).
  apply (np_arange_Fin_quotient lo hi w nbins); try assumption.
  - unfold w. intros Hw. apply Hlohi.
    apply Rmult_eq_compat_r with (r := IZR nbins) in Hw.
    unfold Rdiv in Hw. rewrite Rmult_assoc, Rinv_l, Rmult_0_l in Hw by exact HnR.
    lra.
  - unfold w. field. split; [exact HnR | lra].
Qed.

(* A non-zero float64 divided by the int 0 is an infinity, and an arange
   with an infinite step holds its start alone. *)
Lemma div_by_zero_Fin (d : R) :
  d <> 0%R -> fdiv (Fin d) (of_int 0) = XR.inf (Rltb d 0).
Proof.
  intros Hd. cbn. now rewrite (Reqb_true 0 0 eq_refl), (Reqb_false d 0 Hd).
Qed.

Lemma np_arange_infinite_step (start stop : R) (negative : bool) :
  (stop + - start)%R <> 0%R ->
  np_arange (Fin start) (Fin stop) (XR.inf negative) = Ok [Fin start].
Proof.
  intros Hd.
  assert (Hval : fdiv (fsub (Fin stop) (Fin start)) (XR.inf negative)
                 = Fin (IZR 0)) by (destruct negative; reflexivity).
  assert (Hnext : feq (fsub (Fin stop) (Fin start)) (of_int 0) = false)
    by (cbn; now apply Reqb_false).
  unfold np_arange. cbv zeta. rewrite Hval, Hnext.
  change (fceil (Fin (IZR 0))) with (Fin (IZR (Zceil (IZR 0)))).
  rewrite ZceilZ.
  change (is_nan (Fin (IZR 0))) with false.
  change (to_int (Fin (IZR 0))) with (Some (Rtrunc (IZR 0))).
  rewrite Rtrunc_IZR.
  change (feq (Fin (IZR 0)) (of_int 0)) with (Reqb 0 0).
  change (signbit (Fin (IZR 0))) with (Rltb 0 0).
  rewrite (Reqb_true 0 0 eq_refl), (Rltb_false 0 0) by lra.
  reflexivity.
Qed.



(** ** The significance scorer on an empty map *)

(** X10. On an empty reference map the scorer raises nothing: the standard
    deviation of no values is nan, and so is every score. *)
Theorem snr_on_empty_map (peak_values : list xreal) (sigma : option xreal) :
  _signal_to_noise_ratio peak_values [] sigma
  = Ok (map (fun _ => NaN) peak_values).
Proof.
  unfold _signal_to_noise_ratio. rewrite np_std_nil. f_equal.
  apply map_ext; intros a. destruct a; reflexivity.
Qed.

(** ** The filter stage and the factory: frames and failures *)

Section Factory.
Context {F : Type} `{Float64 F}.
Variable apply_kernel : kernel -> filter_args F -> list F -> list F.
Variable locatePeaks : list F -> F -> list F -> list F * list (F * F).

Lemma filter_Ok_inv (skymap sm : SkyMap F) (kernel_width : F) (dir : Z) :
  _filter apply_kernel skymap kernel_width dir = Ok sm ->
  exists orig : list F,
    data skymap !! "orig"%string = Some orig
    /\ sm = {| data :=
                 <["orig_ghpf_g3df_glpf"%string :=
                     low_pass apply_kernel kernel_width
                       (map fabs
                          (third_derivative apply_kernel kernel_width dir
                             (high_pass apply_kernel kernel_width orig)))]>
                   (data skymap);
               npix := npix skymap;
               opening_angle := opening_angle skymap;
               map_file := map_file skymap |}.
Proof.
  unfold _filter, convolution.
  destruct (data skymap !! "orig"%string) as [orig|] eqn:Horig;
    [|discriminate].
  rewrite !bind_Ok. intros Hok. injection Hok as <-.
  now exists orig.
Qed.

(** X12. The factory raises KeyError when the variant it starts from is
    missing: "orig" when filtering is requested, the binning variant
    bin_dsc["on"] otherwise.  *)
Theorem from_sky_missing_variant
    (skymap : SkyMap F) (on : string) (bin_dsc : BinDsc)
    (kernel_width : F) (dir : Z) (filters : bool) :
  (if filters then data skymap !! "orig"%string
   else data skymap !! bin_on bin_dsc) = None ->
  from_sky apply_kernel locatePeaks skymap on bin_dsc kernel_width dir
    filters
  = Raise KeyError.
Proof.
  intros Hmissing. unfold from_sky. destruct filters.
  - unfold _filter, convolution. now rewrite Hmissing.
  - now rewrite bind_Ok, Hmissing.
Qed.

(** X20. On an empty field the threshold builder raises ValueError,
    whatever nbins is (np.min has no value to return), and so does the
    factory when the variant it bins on is an empty array. *)
Theorem from_sky_empty_field_raises
    (skymap sm : SkyMap F) (on : string) (bin_dsc : BinDsc)
    (kernel_width : F) (dir : Z) (filters : bool) :
  (if filters then _filter apply_kernel skymap kernel_width dir
   else Ok skymap) = Ok sm ->
  data sm !! bin_on bin_dsc = Some [] ->
  (forall nbins : Z,
     _get_convergence_thresholds (F := F) [] nbins = Raise ValueError)
  /\ from_sky apply_kernel locatePeaks skymap on bin_dsc kernel_width dir
       filters
     = Raise ValueError.
Proof.
  intros Hprep Hbin. split; [reflexivity|].
  unfold from_sky. rewrite Hprep, bind_Ok, Hbin, bind_Ok.
  reflexivity.
Qed.

(* A successful run of the factory, taken apart. *)
Lemma from_sky_Ok_inv
    (skymap : SkyMap F) (on : string) (bin_dsc : BinDsc)
    (kernel_width : F) (dir : Z) (filters : bool) (d : Dipoles F) :
  from_sky apply_kernel locatePeaks skymap on bin_dsc kernel_width dir
    filters = Ok d ->
  exists (map_data amplitudes deltaT' snr' : list F)
         (positions pos_deg' : list (F * F)),
    _remove_peaks_crossing_edge (npix skymap) (opening_angle skymap)
        kernel_width amplitudes positions = Ok (deltaT', pos_deg')
    /\ deltaT' <> []
    /\ _signal_to_noise_ratio deltaT' map_data None = Ok snr'
    /\ d = {| Dipoles_data :=
                {| deltaT := deltaT';
                   x_deg := map fst pos_deg';
                   y_deg := map snd pos_deg';
                   snr := snr';
                   x_pix := map (fun p =>
                              np_rint_int
                                (to_px (npix skymap) (opening_angle skymap)
                                       p.1)) pos_deg';
                   y_pix := map (fun p =>
                              np_rint_int
                                (to_px (npix skymap) (opening_angle skymap)
                                       p.2)) pos_deg';
                   index_dipole := None;
                   distances := None;
                   attrs_map_file := map_file skymap;
                   attrs_filters := filters;
                   attrs_kernel_width := kernel_width |} |}.
Proof.
  unfold from_sky.
  destruct (if filters then _filter apply_kernel skymap kernel_width dir
            else Ok skymap) as [sm|e] eqn:Hprep; [|discriminate].
  assert (Hgeo : npix sm = npix skymap
                 /\ opening_angle sm = opening_angle skymap
                 /\ map_file sm = map_file skymap).
  { destruct filters.
    - destruct (filter_Ok_inv _ _ _ _ Hprep) as (o & _ & ->). auto.
    - injection Hprep as <-. auto. }
  destruct Hgeo as (Hnpix & Hoa & Hfile).
  rewrite bind_Ok, Hnpix, Hoa, Hfile.
  destruct (data sm !! bin_on bin_dsc) as [sky_array|]; [|discriminate].
  rewrite bind_Ok.
  destruct (_get_convergence_thresholds sky_array (bin_nbins bin_dsc))
    as [thresholds|e]; [|discriminate].
  rewrite bind_Ok.
  destruct (data sm !! on) as [map_data|]; [|discriminate].
  rewrite bind_Ok.
  destruct (locatePeaks map_data (opening_angle skymap) thresholds)
    as [amplitudes positions].
  destruct (_remove_peaks_crossing_edge (npix skymap) (opening_angle skymap)
              kernel_width amplitudes positions)
    as [[deltaT' pos_deg']|e] eqn:Hedge; [|discriminate].
  rewrite bind_Ok.
  destruct (length deltaT' =? 0)%nat eqn:Hlen; [discriminate|].
  unfold _signal_to_noise_ratio. rewrite bind_Ok.
  intros Hok. injection Hok as <-.
  exists map_data, amplitudes, deltaT',
    (map (fun p => fdiv p (np_std map_data)) deltaT'), positions, pos_deg'.
  split; [exact Hedge|]. split; [|split; reflexivity].
  intros Hnil. rewrite Hnil in Hlen. discriminate Hlen.
Qed.

(** X13. A table returned by the factory is well formed: it has at least
    one row, its six columns have the same length, it carries no match
    columns yet, and its attributes record the map file, the filter flag
    and the kernel width of the call. *)
Theorem from_sky_table_well_formed
    (skymap : SkyMap F) (on : string) (bin_dsc : BinDsc)
    (kernel_width : F) (dir : Z) (filters : bool) (d : Dipoles F) :
  from_sky apply_kernel locatePeaks skymap on bin_dsc kernel_width dir
    filters = Ok d ->
  let t := Dipoles_data d in
  (0 < length (deltaT t))%nat
  /\ length (x_deg t) = length (deltaT t)
  /\ length (y_deg t) = length (deltaT t)
  /\ length (snr t) = length (deltaT t)
  /\ length (x_pix t) = length (deltaT t)
  /\ length (y_pix t) = length (deltaT t)
  /\ index_dipole t = None
  /\ distances t = None
  /\ attrs_map_file t = map_file skymap
  /\ attrs_filters t = filters
  /\ attrs_kernel_width t = kernel_width.
Proof.
  intros Hok.
  destruct (from_sky_Ok_inv _ _ _ _ _ _ _ Hok)
    as (md & amps & dT & sn & ps & pd & Hedge & Hne & Hsnr & ->).
  destruct (edge_rejector_Ok_inv _ _ _ _ _ _ Hedge) as (Hn & Hd & Hlen).
  rewrite (edge_rejector_on_columns _ _ _ _ _ Hn Hd Hlen) in Hedge.
  injection Hedge as <- <-.
  unfold _signal_to_noise_ratio in Hsnr. injection Hsnr as <-.
  cbn [Dipoles_data deltaT x_deg y_deg snr x_pix y_pix index_dipole
       distances attrs_map_file attrs_filters attrs_kernel_width].
  rewrite !length_map. repeat split; try reflexivity.
  destruct (List.filter _ _); [now contradiction Hne | simpl; lia].
Qed.

(** X14. Every peak of a table returned by the factory passes the edge
    test: no returned position lies within the buffer of the map edge. *)
Theorem from_sky_peaks_inside_buffer
    (skymap : SkyMap F) (on : string) (bin_dsc : BinDsc)
    (kernel_width : F) (dir : Z) (filters : bool) (d : Dipoles F) :
  from_sky apply_kernel locatePeaks skymap on bin_dsc kernel_width dir
    filters = Ok d ->
  List.Forall
    (fun p => retained (npix skymap) (opening_angle skymap) kernel_width p
              = true)
    (combine (x_deg (Dipoles_data d)) (y_deg (Dipoles_data d))).
Proof.
  intros Hok.
  destruct (from_sky_Ok_inv _ _ _ _ _ _ _ Hok)
    as (md & amps & dT & sn & ps & pd & Hedge & _ & _ & ->).
  destruct (edge_rejector_Ok_inv _ _ _ _ _ _ Hedge) as (Hn & Hd & Hlen).
  rewrite (edge_rejector_on_columns _ _ _ _ _ Hn Hd Hlen) in Hedge.
  injection Hedge as _ <-.
  cbn [Dipoles_data x_deg y_deg]. rewrite combine_fst_snd.
  apply List.Forall_forall. intros p Hp.
  apply in_map_iff in Hp. destruct Hp as ([a q] & <- & Hq).
  apply filter_In in Hq. exact (proj2 Hq).
Qed.

End Factory.

Lemma from_sky_empty_field_raises_witness :
  from_sky toy_kernel locate_one toy_empty_skymap "orig"
    {| bin_on := "orig"; bin_nbins := 100 |} (of_int 5) 1 false
  = Raise ValueError.
Proof.
  apply (from_sky_empty_field_raises toy_kernel locate_one toy_empty_skymap
           toy_empty_skymap "orig" {| bin_on := "orig"; bin_nbins := 100 |}
           (of_int 5) 1 false).
  - reflexivity.
  - vm_compute; reflexivity.
Defined.

Lemma from_sky_missing_variant_witness :
  from_sky toy_kernel locate_one toy_skymap "orig"
    {| bin_on := "orig_gsn"; bin_nbins := 100 |} (of_int 5) 1 false
  = Raise KeyError.
Proof.
  apply from_sky_missing_variant. vm_compute; reflexivity.
Defined.

Lemma from_sky_table_well_formed_witness :
  exists d : Dipoles float,
    from_sky toy_kernel locate_one toy_wide_skymap "orig"
      {| bin_on := "orig"; bin_nbins := 4 |} (of_int 5) 1 false = Ok d
    /\ (0 < length (deltaT (Dipoles_data d)))%nat
    /\ length (x_pix (Dipoles_data d)) = length (deltaT (Dipoles_data d)).
Proof.
  destruct (from_sky toy_kernel locate_one toy_wide_skymap "orig"
              {| bin_on := "orig"; bin_nbins := 4 |} (of_int 5) 1 false)
    as [d|e] eqn:Hrun; [|vm_compute in Hrun; discriminate Hrun].
  exists d. split; [reflexivity|].
  destruct (from_sky_table_well_formed toy_kernel locate_one _ _ _ _ _ _ _
              Hrun) as (Hrows & _ & _ & _ & Hpix & _).
  split; assumption.
Defined.

Lemma from_sky_peaks_inside_buffer_witness :
  exists d : Dipoles float,
    from_sky toy_kernel locate_one toy_wide_skymap "orig"
      {| bin_on := "orig"; bin_nbins := 4 |} (of_int 5) 1 false = Ok d
    /\ List.Forall
         (fun p => retained 100 (of_int 20) (of_int 5) p = true)
         (combine (x_deg (Dipoles_data d)) (y_deg (Dipoles_data d))).
Proof.
  destruct (from_sky toy_kernel locate_one toy_wide_skymap "orig"
              {| bin_on := "orig"; bin_nbins := 4 |} (of_int 5) 1 false)
    as [d|e] eqn:Hrun; [|vm_compute in Hrun; discriminate Hrun].
  exists d. split; [reflexivity|].
  exact (from_sky_peaks_inside_buffer toy_kernel locate_one _ _ _ _ _ _ _
           Hrun).
Defined.

(** ** Catalog matching: what is stored *)

Section Matching.
Context {F : Type} `{Float64 F}.

(* The running minimum always names a position of the list and the value
   found there. *)
Lemma argmin_from_picks (pre ds : list F) (best : F * nat) :
  nth_error (pre ++ ds) best.2 = Some best.1 ->
  nth_error (pre ++ ds) (argmin_from (length pre) best ds).2
  = Some (argmin_from (length pre) best ds).1.
Proof.
  revert pre best. induction ds as [|d ds IH]; intros pre best Hbest.
  - exact Hbest.
  - cbn [argmin_from].
    replace (S (length pre)) with (length (pre ++ [d]))
      by (rewrite length_app; simpl; lia).
    replace (pre ++ d :: ds) with ((pre ++ [d]) ++ ds) in *
      by (now rewrite <- app_assoc).
    apply IH.
    destruct (flt d best.1); [|exact Hbest].
    cbn [fst snd]. rewrite <- app_assoc. cbn [app].
    rewrite nth_error_app2, Nat.sub_diag by lia. reflexivity.
Qed.

Lemma nearest_picks (x0 : F * F) (X : list (F * F)) (q : F * F) :
  exists peak : F * F,
    nth_error (x0 :: X) (nearest x0 X q).2 = Some peak
    /\ (nearest x0 X q).1 = euclidean peak q.
Proof.
  unfold nearest.
  pose proof (argmin_from_picks [euclidean x0 q]
                (map (fun x => euclidean x q) X) (euclidean x0 q, O)
                eq_refl) as Hpick.
  change ([euclidean x0 q] ++ map (fun x => euclidean x q) X)
    with (map (fun x => euclidean x q) (x0 :: X)) in Hpick.
  change (length [euclidean x0 q]) with 1%nat in Hpick.
  rewrite nth_error_map in Hpick.
  destruct (nth_error (x0 :: X) _) as [peak|]; [|discriminate Hpick].
  exists peak. split; [reflexivity|].
  now injection Hpick as <-.
Qed.

(** X15. When [find_nearest] succeeds, the table keeps its six columns and
    attributes, and gains two columns with one entry per row: for the
    i-th record of df2 the stored index names a row of the peak table,
    and the stored distance is the Euclidean distance from that peak to
    the record. *)
Theorem find_nearest_stores_consistent_columns
    (self self' : Dipoles F) (df2 : list (F * F))
    (returned : option (PeakFrame F)) :
  find_nearest self df2 = Ok (self', returned) ->
  let df := Dipoles_data self in
  let df' := Dipoles_data self' in
  exists (indices : list nat) (dists : list F),
    df' = {| deltaT := deltaT df; x_deg := x_deg df; y_deg := y_deg df;
             snr := snr df; x_pix := x_pix df; y_pix := y_pix df;
             index_dipole := Some indices; distances := Some dists;
             attrs_map_file := attrs_map_file df;
             attrs_filters := attrs_filters df;
             attrs_kernel_width := attrs_kernel_width df |}
    /\ length indices = length (deltaT df)
    /\ length dists = length (deltaT df)
    /\ forall (i : nat) (q : F * F),
         nth_error df2 i = Some q ->
         exists (j : nat) (peak : F * F),
           nth_error indices i = Some j
           /\ nth_error (combine (x_deg df) (y_deg df)) j = Some peak
           /\ nth_error dists i = Some (euclidean peak q).
Proof.
  unfold find_nearest.
  destruct (kneighbors _ df2) as [out|e] eqn:Hsearch; [|discriminate].
  apply kneighbors_Ok_inv in Hsearch.
  destruct Hsearch as (x0 & X & -> & _ & _ & _ & ->).
  rewrite bind_Ok. unfold pd_setitem. rewrite !length_map.
  destruct (length df2 =? length (deltaT (Dipoles_data self)))%nat
    eqn:Hrows; [|discriminate].
  rewrite !bind_Ok. intros Hok. injection Hok as <- _.
  apply Nat.eqb_eq in Hrows.
  exists (map snd (map (nearest x0 X) df2)),
    (map fst (map (nearest x0 X) df2)).
  split; [reflexivity|].
  split; [now rewrite !length_map|]. split; [now rewrite !length_map|].
  intros i q Hq.
  destruct (nearest_picks x0 X q) as (peak & Hpeak & Hdist).
  exists (nearest x0 X q).2, peak.
  rewrite !nth_error_map, Hq. cbn [option_map].
  rewrite Hdist. auto.
Qed.

(** X16. On a table whose position columns are as long as its amplitude
    column, [find_nearest] succeeds exactly when the table has a row, df2
    has as many records as the table has rows, and no position of the
    table or of df2 is a nan or an infinity; in every other case (an empty
    table, an empty or a longer or shorter df2, a position that is not
    finite) it raises ValueError. *)
Theorem find_nearest_outcomes (self : Dipoles F) (df2 : list (F * F)) :
  let df := Dipoles_data self in
  let accepted :=
    (0 < length (deltaT df))%nat
    /\ length df2 = length (deltaT df)
    /\ all_finite (combine (x_deg df) (y_deg df)) = true
    /\ all_finite df2 = true in
  length (x_deg df) = length (deltaT df) ->
  length (y_deg df) = length (deltaT df) ->
  ((exists out, find_nearest self df2 = Ok out) <-> accepted)
  /\ (find_nearest self df2 = Raise ValueError <-> ~ accepted).
Proof.
  intros df accepted Hx Hy.
  assert (Hcomb : length (combine (x_deg df) (y_deg df))
                  = length (deltaT df)).
  { rewrite length_combine. lia. }
  unfold find_nearest. fold df.
  destruct (kneighbors (combine (x_deg df) (y_deg df)) df2)
    as [out|e] eqn:Hsearch.
  - apply kneighbors_Ok_inv in Hsearch.
    destruct Hsearch as (x0 & X & HX & HY & HXfin & HYfin & ->).
    rewrite HX in Hcomb. cbn [length] in Hcomb.
    rewrite bind_Ok. unfold pd_setitem. rewrite !length_map.
    destruct (length df2 =? length (deltaT df))%nat eqn:Hrows.
    + apply Nat.eqb_eq in Hrows. rewrite !bind_Ok.
      assert (Hacc : accepted)
        by (unfold accepted; repeat split; [lia | exact Hrows | | ]; assumption).
      split; split.
      * intros _. exact Hacc.
      * intros _. eexists; reflexivity.
      * discriminate.
      * intros Hnot. contradiction.
    + apply Nat.eqb_neq in Hrows. rewrite bind_Raise.
      split; split; try reflexivity.
      * intros [out Hout]; discriminate Hout.
      * intros (_ & Hlen & _); contradiction.
      * intros _ (_ & Hlen & _); contradiction.
  - assert (He : e = ValueError /\ ~ accepted).
    { destruct (combine (x_deg df) (y_deg df)) as [|x0 X] eqn:HX.
      { rewrite kneighbors_rejects in Hsearch by (left; reflexivity).
        injection Hsearch as <-. split; [reflexivity|].
        cbn [length] in Hcomb. intros (Hrows & _). lia. }
      destruct df2 as [|y0 Y].
      { rewrite kneighbors_rejects in Hsearch by (right; left; reflexivity).
        injection Hsearch as <-. split; [reflexivity|].
        cbn [length] in Hcomb. intros (Hrows & Hlen & _).
        cbn [length] in Hlen. lia. }
      destruct (all_finite (x0 :: X)) eqn:HXfin.
      - destruct (all_finite (y0 :: Y)) eqn:HYfin.
        + rewrite (kneighbors_accepts _ _ _ _ HXfin HYfin) in Hsearch.
          discriminate Hsearch.
        + rewrite kneighbors_rejects in Hsearch by (right; right; right; exact HYfin).
          injection Hsearch as <-. split; [reflexivity|].
          intros (_ & _ & _ & Hfin). discriminate Hfin.
      - rewrite kneighbors_rejects in Hsearch by (right; right; left; exact HXfin).
        injection Hsearch as <-. split; [reflexivity|].
        intros (_ & _ & Hfin & _). discriminate Hfin. }
    destruct He as [-> Hnot]. rewrite bind_Raise.
    split; split; try reflexivity.
    + intros [out Hout]; discriminate Hout.
    + intros Hacc; contradiction.
    + intros _; exact Hnot.
Qed.

End Matching.

Lemma find_nearest_stores_consistent_columns_witness :
  exists (self' : Dipoles float) (indices : list nat) (dists : list float),
    find_nearest toy_dipoles [(of_int 0, of_int 0); (of_int 5, of_int 0)]
    = Ok (self', None)
    /\ index_dipole (Dipoles_data self') = Some indices
    /\ distances (Dipoles_data self') = Some dists
    /\ length indices = 2%nat.
Proof.
  destruct (find_nearest toy_dipoles
              [(of_int 0, of_int 0); (of_int 5, of_int 0)])
    as [[self' returned]|e] eqn:Hrun;
    [|vm_compute in Hrun; discriminate Hrun].
  destruct (find_nearest_stores_consistent_columns toy_dipoles self' _
              returned Hrun) as (indices & dists & Hdf & Hlen & _).
  assert (Hnone : returned = None).
  { vm_compute in Hrun. now injection Hrun as _ <-. }
  subst returned.
  exists self', indices, dists. rewrite Hdf.
  repeat split; try reflexivity. exact Hlen.
Defined.

Lemma find_nearest_outcomes_witness :
  (exists out,
     find_nearest toy_dipoles [(of_int 0, of_int 0); (of_int 5, of_int 0)]
     = Ok out)
  /\ find_nearest toy_dipoles [(of_int 0 : float, of_int 0 : float)]
     = Raise ValueError
  /\ find_nearest toy_dipoles
       [(of_int 0, of_int 0); (PrimFloat.nan, of_int 0)]
     = Raise ValueError.
Proof.
  split; [|split].
  - apply (find_nearest_outcomes toy_dipoles
             [(of_int 0, of_int 0); (of_int 5, of_int 0)]);
      [reflexivity | reflexivity | ].
    split; [simpl; lia|]. split; [reflexivity|].
    split; vm_compute; reflexivity.
  - apply (find_nearest_outcomes toy_dipoles [(of_int 0, of_int 0)]);
      [reflexivity | reflexivity | ].
    intros (_ & Hlen & _). discriminate Hlen.
  - apply (find_nearest_outcomes toy_dipoles
             [(of_int 0, of_int 0); (PrimFloat.nan, of_int 0)]);
      [reflexivity | reflexivity | ].
    intros (_ & _ & _ & Hfin). vm_compute in Hfin. discriminate Hfin.
Defined.

(** ** Catalog matching in exact arithmetic *)

Lemma euclidean_Fin (p q : R * R) :
  euclidean (finite_point p) (finite_point q) = Fin (Rdist p q).
Proof.
  unfold euclidean, finite_point, Rdist. cbn.
  rewrite Rltb_false; [reflexivity|].
  pose proof (Rle_0_sqr (p.1 + - q.1)) as Hx.
  pose proof (Rle_0_sqr (p.2 + - q.2)) as Hy.
  unfold Rsqr in *. lra.
Qed.

Lemma argmin_from_Fin (ds : list R) (b : R) (j i : nat) :
  (argmin_from i (Fin b, j) (map Fin ds)).1 = Fin (Rlist_min b ds).
Proof.
  unfold Rlist_min. revert b j i.
  induction ds as [|d ds IH]; intros b j i; [reflexivity|].
  cbn [argmin_from map fold_left fst].
  change (flt (Fin d) (Fin b))
    with (Rleb d b && negb (Reqb d b)).
  unfold Rmin. destruct (Rle_dec b d) as [Hbd|Hbd].
  - destruct (Req_dec_T d b) as [Heq|Hne].
    + rewrite (Reqb_true d b Heq), andb_false_r. apply IH.
    + rewrite (Rleb_false d b), andb_false_l by lra. apply IH.
  - rewrite (Rleb_true d b), (Reqb_false d b) by lra. apply IH.
Qed.

Lemma Rlist_min_lower (b : R) (ds : list R) :
  List.Forall (Rle (Rlist_min b ds)) (b :: ds).
Proof.
  unfold Rlist_min. revert b.
  induction ds as [|d ds IH]; intros b; simpl.
  - constructor; [lra | constructor].
  - pose proof (IH (Rmin b d)) as Hmin.
    inversion Hmin as [|m l Hhead Htail]; subst.
    pose proof (Rmin_l b d). pose proof (Rmin_r b d).
    constructor; [lra|]. constructor; [lra | exact Htail].
Qed.

Lemma Rlist_min_member (b : R) (ds : list R) : In (Rlist_min b ds) (b :: ds).
Proof.
  unfold Rlist_min. revert b.
  induction ds as [|d ds IH]; intros b; simpl; [left; reflexivity|].
  destruct (IH (Rmin b d)) as [Hhead|Htail].
  - rewrite <- Hhead. unfold Rmin. destruct (Rle_dec b d); auto.
  - right; right; exact Htail.
Qed.

Lemma all_finite_finite_point (l : list (R * R)) :
  all_finite (map finite_point l) = true.
Proof. induction l as [|p l IH]; [reflexivity | exact IH]. Qed.



(** ** Pixel coordinates of the returned peaks *)

Lemma Rrint_between (lo hi : Z) (r : R) :
  (IZR lo <= r <= IZR hi)%R -> (lo <= Rrint r <= hi)%Z.
Proof.
  intros [Hlo Hhi].
  pose proof (Zfloor_bound r) as [Hf1 Hf2].
  pose proof (Zfloor_lub lo r Hlo) as Hflo.
  assert (Hfhi : (Zfloor r <= hi)%Z) by (apply le_IZR; lra).
  unfold Rrint.
  destruct (Rltb (r - IZR (Zfloor r)) (1 / 2)) eqn:Hhalf; [lia|].
  destruct (Reqb (r - IZR (Zfloor r)) (1 / 2) && Z.even (Zfloor r)); [lia|].
  assert (Hlt : (Zfloor r < hi)%Z).
  { apply lt_IZR. unfold Rltb in Hhalf.
    destruct (Rlt_dec (r - IZR (Zfloor r)) (1 / 2)); [discriminate|]. lra. }
  lia.
Qed.

Lemma np_rint_int_Fin (r : R) : np_rint_int (Fin r) = Rrint r.
Proof. unfold np_rint_int. cbn. now rewrite Rtrunc_IZR. Qed.

Lemma within_window_Fin (b h : R) (px : xreal) :
  XR.le (Fin b) px && XR.le px (Fin h) = true ->
  exists r : R, px = Fin r /\ (b <= r <= h)%R.
Proof.
  destruct px as [r| | |]; simpl; try discriminate;
    try (rewrite andb_false_r; discriminate).
  unfold Rleb. destruct (Rle_dec b r), (Rle_dec r h); try discriminate.
  intros _. now exists r.
Qed.

Lemma buffer_px_Fin_ceil (npix : Z) (a k : R) :
  npix <> 0%Z ->
  feq (fmul (of_int 60) (pixel_len_deg npix (Fin a))) (of_int 0) = false ->
  buffer_px npix (Fin a) (Fin k)
  = Fin (IZR (Zceil (k / (60 * (a / IZR npix))))).
Proof.
  intros Hnpix Hden.
  assert (HnR : IZR npix <> 0%R) by now apply not_0_IZR.
  unfold buffer_px, pixel_len_deg in *. cbn in *.
  rewrite (Reqb_false (IZR npix) 0 HnR) in *. cbn in *.
  now rewrite Hden.
Qed.



(** ** The factory when every peak is rejected *)

Section AllRejected.
Context {F : Type} `{Float64 F}.
Variable apply_kernel : kernel -> filter_args F -> list F -> list F.
Variable locatePeaks : list F -> F -> list F -> list F * list (F * F).

Lemma filter_all_false {A : Type} (g : A -> bool) (l : list A) :
  List.Forall (fun a => g a = false) l -> List.filter g l = [].
Proof.
  induction 1 as [|a l Ha _ IH]; simpl; [reflexivity|]. now rewrite Ha.
Qed.

(** X19. The assertion of the factory also stops a run whose peaks all
    fail the edge test: when peak location returns as many amplitudes as
    positions and no position is retained, the factory raises the failed
    assertion "No peaks" instead of returning an empty table. *)
Theorem from_sky_all_peaks_rejected
    (skymap sm : SkyMap F) (on : string) (bin_dsc : BinDsc)
    (kernel_width : F) (dir : Z) (filters : bool)
    (sky_array thresholds map_data amplitudes : list F)
    (positions : list (F * F)) :
  (if filters then _filter apply_kernel skymap kernel_width dir
   else Ok skymap) = Ok sm ->
  data sm !! bin_on bin_dsc = Some sky_array ->
  _get_convergence_thresholds sky_array (bin_nbins bin_dsc) = Ok thresholds ->
  data sm !! on = Some map_data ->
  locatePeaks map_data (opening_angle sm) thresholds
    = (amplitudes, positions) ->
  length amplitudes = length positions ->
  npix sm <> 0%Z ->
  feq (fmul (of_int 60) (pixel_len_deg (npix sm) (opening_angle sm)))
      (of_int 0) = false ->
  List.Forall
    (fun p => retained (npix sm) (opening_angle sm) kernel_width p = false)
    positions ->
  from_sky apply_kernel locatePeaks skymap on bin_dsc kernel_width dir
    filters
  = Raise (AssertionError "No peaks").
Proof.
  intros Hprep Hbin Hth Hon Hloc Hlen Hnpix Hden Hnone.
  unfold from_sky.
  rewrite Hprep, bind_Ok, Hbin, bind_Ok, Hth, bind_Ok, Hon, bind_Ok, Hloc.
  rewrite (edge_rejector_on_columns _ _ _ _ _ Hnpix Hden Hlen).
  rewrite filter_all_false; [reflexivity|].
  apply List.Forall_forall. intros [a p] Hin. cbn [snd].
  rewrite List.Forall_forall in Hnone. apply Hnone.
  apply in_combine_r in Hin. exact Hin.
Qed.

End AllRejected.

Lemma from_sky_all_peaks_rejected_witness :
  from_sky toy_kernel locate_one toy_skymap "orig"
    {| bin_on := "orig"; bin_nbins := 4 |} (of_int 5) 1 false
  = Raise (AssertionError "No peaks").
Proof.
  eapply (from_sky_all_peaks_rejected toy_kernel locate_one toy_skymap
            toy_skymap "orig" {| bin_on := "orig"; bin_nbins := 4 |}
            (of_int 5) 1 false).
  - reflexivity.
  - vm_compute; reflexivity.
  - vm_compute; reflexivity.
  - vm_compute; reflexivity.
  - reflexivity.
  - reflexivity.
  - discriminate.
  - vm_compute; reflexivity.
  - repeat constructor.
Defined.
